(** * divine-web: relay hooks and relay configuration

    A shallow embedding of the data-fetching hooks of the web client
    ([useVideoSocialMetrics], [useVideoUserInteractions], [useFollowing],
    [useFollowers]) and of [supportsNIP50], followed by the properties the
    specification states about them.

    Conventions of the embedding.
    - What is modelled of each hook is the [queryFn] it hands to [useQuery]:
      the asynchronous function from the relay's answers to the hook's data.
      An [await] is a bind of the error monad; a rejected promise and a thrown
      exception are both [inl err]; [try { .. } catch { .. }] is [catch].
    - The relay client ([nostr.query]) and the [URL] constructor are not code
      of this repository: they are parameters of the definitions.
    - A JavaScript string is modelled by the bytes of its UTF-8 encoding;
      the only string operations used are [===], truthiness (non-emptiness)
      and template concatenation.
    - [tag[i]] on an array of strings is [nth_error]: [None] is [undefined].
    - A [Map] is an association list in insertion order, a [Set] a list
      without repetition in insertion order, as iteration observes them.
    - Counters are [Z]; a JavaScript number counts exactly up to 2^53, far
      above the length of any array.
    - Logging ([console.error], [debugLog], [debugError]) is left out, but
      not the evaluation of its arguments where that can throw. *)

From Stdlib Require Import String Ascii List ZArith Bool Lia ListSet Permutation.
From Stdlib Require Import DecimalString.
From ExtLib Require Import Structures.Monad Structures.MonadExc Data.Monads.EitherMonad.
Import ListNotations.
Import MonadNotation.
Local Open Scope string_scope.
Local Open Scope list_scope.
Local Open Scope Z_scope.
Local Open Scope monad_scope.

(** ** Data model *)

(** [NostrEvent] of the relay client library. *)
Module Event.
Record t : Type := mk {
  id : string;
  pubkey : string;
  created_at : Z;
  kind : Z;
  tags : list (list string);
  content : string
}.
End Event.

(** A filter object literal: [kinds], [authors], the ['#x'] tag entries in
    the order they are written, and [limit]. *)
Record NostrFilter : Type := mkFilter {
  kinds : list Z;
  authors : option (list string);
  tagFilters : list (string * list string);
  limit : option Z
}.

(** [AbortSignal]: the signal of the query context, [AbortSignal.timeout(ms)]
    and [AbortSignal.any([..])]. *)
#[warnings="-register-all"]
Inductive AbortSignal : Type :=
| ContextSignal (n : nat)
| SignalTimeout (ms : Z)
| SignalAny (signals : list AbortSignal).

Record QueryFunctionContext : Type := mkContext { signal : AbortSignal }.

(** What a rejected promise or a [throw] carries. *)
Inductive JsError : Type :=
| NetworkError (msg : string)
| TimeoutError
| AbortError
| TypeError (msg : string)
| RangeError (msg : string).

(** The computation monad of a [queryFn]: [inl] is a throw or rejection. *)
Abbreviation Js := (sum JsError).

(** [nostr.query(filters, { signal })]. *)
Definition NostrQuery : Type :=
  list NostrFilter -> AbortSignal -> Js (list Event.t).

Record VideoSocialMetrics : Type := mkMetrics {
  likeCount : Z;
  repostCount : Z;
  viewCount : Z;
  commentCount : Z
}.

(** The object returned by [useVideoUserInteractions]; [null] is [None]. *)
Record VideoUserInteractions : Type := mkInteractions {
  hasLiked : bool;
  hasReposted : bool;
  likeEventId : option string;
  repostEventId : option string
}.

(** The part of a parsed [URL] the code reads. *)
Record URL : Type := mkURL { protocol : string; hostname : string; port : string }.

(** ** JavaScript primitives *)

(** Truthiness of [string | undefined]: defined and non-empty. *)
Definition truthy (v : option string) : bool :=
  match v with
  | Some s => negb (s =? "")%string
  | None => false
  end.

(** [v === s] for [v : string | undefined] and a string [s]. *)
Definition strict_eq (v : option string) (s : string) : bool :=
  match v with
  | Some s' => (s' =? s)%string
  | None => false
  end.

Definition value_eq_dec (x y : option string) : {x = y} + {x <> y}.
Proof. decide equality. apply string_dec. Defined.

(** [Map.prototype.set]: an existing key keeps its place and takes the new
    value, a new key goes last. *)
Fixpoint Map_set {V : Type} (m : list (string * V)) (k : string) (v : V)
  : list (string * V) :=
  match m with
  | [] => [(k, v)]
  | (k', v') :: m' =>
      if (k' =? k)%string then (k', v) :: m' else (k', v') :: Map_set m' k v
  end.

(** [Array.from(m.values())]. *)
Definition Map_values {V : Type} (m : list (string * V)) : list V :=
  map snd m.

(** [Array.prototype.includes] on strings. *)
Fixpoint includes (l : list string) (s : string) : bool :=
  match l with
  | [] => false
  | x :: l' => (x =? s)%string || includes l' s
  end.

(** [Array.prototype.sort(compareFn)]: a stable sort; [x], which stood before
    the elements of the sorted tail, moves behind [y] only when
    [compareFn(x, y) > 0]. *)
Fixpoint sort_insert {A : Type} (compareFn : A -> A -> Z) (x : A) (l : list A)
  : list A :=
  match l with
  | [] => [x]
  | y :: l' =>
      if compareFn x y >? 0 then y :: sort_insert compareFn x l'
      else x :: y :: l'
  end.

Definition sort {A : Type} (compareFn : A -> A -> Z) (l : list A) : list A :=
  fold_right (sort_insert compareFn) [] l.

(** ** Video social metrics *)

(** [videoPubkey && vineId ? `34236:${videoPubkey}:${vineId}` : null]. *)
Definition addressableRef (videoPubkey vineId : option string) : option string :=
  match videoPubkey, vineId with
  | Some pk, Some d =>
      if truthy videoPubkey && truthy vineId
      then Some ("34236:" ++ pk ++ ":" ++ d)%string
      else None
  | _, _ => None
  end.

Definition socialKinds : list Z := [1; 6; 7; 1111; 9735].

Definition socialFilter (tagName value : string) : NostrFilter :=
  {| kinds := socialKinds; authors := None;
     tagFilters := [(tagName, [value])]; limit := Some 500 |}.

Definition socialMetricsFilters (videoId : string) (videoPubkey vineId : option string)
  : list NostrFilter :=
  [socialFilter "#e" videoId; socialFilter "#E" videoId]
  ++ match addressableRef videoPubkey vineId with
     | Some ref => [socialFilter "#a" ref; socialFilter "#A" ref]
     | None => []
     end.

(** The deduplication loop [for (const event of allEvents)
    uniqueEvents.set(event.id, event)]. *)
Definition uniqueEvents (allEvents : list Event.t) : list (string * Event.t) :=
  fold_left (fun m event => Map_set m (Event.id event) event) allEvents [].

Definition dedupEvents (allEvents : list Event.t) : list Event.t :=
  Map_values (uniqueEvents allEvents).

(** [content === '+' || content === '❤️' || content === '👍']. *)
Definition isPositiveReaction (c : string) : bool :=
  (c =? "+")%string || (c =? "❤️")%string || (c =? "👍")%string.

Definition zeroMetrics : VideoSocialMetrics :=
  {| likeCount := 0; repostCount := 0; viewCount := 0; commentCount := 0 |}.

(** One turn of the [switch (event.kind)] loop on the four counters. *)
Definition countEvent (m : VideoSocialMetrics) (event : Event.t) : VideoSocialMetrics :=
  let k := Event.kind event in
  if k =? 7 then
    if isPositiveReaction (Event.content event)
    then {| likeCount := likeCount m + 1; repostCount := repostCount m;
            viewCount := viewCount m; commentCount := commentCount m |}
    else m
  else if k =? 6 then
    {| likeCount := likeCount m; repostCount := repostCount m + 1;
       viewCount := viewCount m; commentCount := commentCount m |}
  else if (k =? 1) || (k =? 1111) then
    {| likeCount := likeCount m; repostCount := repostCount m;
       viewCount := viewCount m; commentCount := commentCount m + 1 |}
  else if k =? 9735 then
    {| likeCount := likeCount m; repostCount := repostCount m;
       viewCount := viewCount m + 1; commentCount := commentCount m |}
  else m.

(** From the relay's answer to the snapshot: deduplicate, then count. *)
Definition metricsOfEvents (allEvents : list Event.t) : VideoSocialMetrics :=
  fold_left countEvent (dedupEvents allEvents) zeroMetrics.

(** ** Video user interactions *)

Definition emptyInteractions : VideoUserInteractions :=
  {| hasLiked := false; hasReposted := false;
     likeEventId := None; repostEventId := None |}.

Definition interactionFilter (userPubkey tagName value : string) : NostrFilter :=
  {| kinds := [6; 7]; authors := Some [userPubkey];
     tagFilters := [(tagName, [value])]; limit := Some 10 |}.

Definition userInteractionFilters (videoId userPubkey : string)
    (videoPubkey vineId : option string) : list NostrFilter :=
  [interactionFilter userPubkey "#e" videoId]
  ++ match addressableRef videoPubkey vineId with
     | Some ref => [interactionFilter userPubkey "#a" ref]
     | None => []
     end.

(** The filter of the second, dependent query: the viewer's delete events
    (kind 5) whose ['e'] tags name one of the events found. *)
Definition deleteFilters (userPubkey : string) (events : list Event.t)
  : list NostrFilter :=
  [{| kinds := [5]; authors := Some [userPubkey];
      tagFilters := [("#e", map Event.id events)]; limit := Some 20 |}].

(** [if (tag[0] === 'e' && tag[1]) deletedEventIds.add(tag[1])]: the set
    holds JavaScript values, here [string | undefined]. *)
Definition addDeletedTag (deletedEventIds : set (option string)) (tag : list string)
  : set (option string) :=
  if strict_eq (nth_error tag 0) "e" && truthy (nth_error tag 1)
  then set_add value_eq_dec (nth_error tag 1) deletedEventIds
  else deletedEventIds.

(** The two nested [forEach] building [deletedEventIds]. *)
Definition collectDeletedEventIds (deleteEvents : list Event.t) : set (option string) :=
  fold_left
    (fun deletedEventIds deleteEvent =>
       fold_left addDeletedTag (Event.tags deleteEvent) deletedEventIds)
    deleteEvents (empty_set (option string)).

(** One turn of the loop over [events]; the four [let] variables are the
    fields of the record. *)
Definition processEvent (deletedEventIds : set (option string))
    (st : VideoUserInteractions) (event : Event.t) : VideoUserInteractions :=
  if set_mem value_eq_dec (Some (Event.id event)) deletedEventIds then st
  else
    let st1 :=
      if (Event.kind event =? 7) && isPositiveReaction (Event.content event)
      then {| hasLiked := true; hasReposted := hasReposted st;
              likeEventId := Some (Event.id event);
              repostEventId := repostEventId st |}
      else st in
    if Event.kind event =? 6
    then {| hasLiked := hasLiked st1; hasReposted := true;
            likeEventId := likeEventId st1;
            repostEventId := Some (Event.id event) |}
    else st1.

(** From the two answers of the relay to the record. *)
Definition interactionsOfEvents (events deleteEvents : list Event.t)
  : VideoUserInteractions :=
  fold_left (processEvent (collectDeletedEventIds deleteEvents)) events
    emptyInteractions.

(** ** Follow graph *)

(** A time value (milliseconds since the epoch) is a valid date when it is
    within 8.64e15 of the epoch. *)
Definition validTimeValue (timeValue : Z) : bool :=
  Z.abs timeValue <=? 8640000000000000.

(** [new Date(timeValue).toISOString()]: throws a [RangeError] on an invalid
    date. The text it returns only reaches the log. *)
Definition Date_toISOString (timeValue : Z) : Js unit :=
  if validTimeValue timeValue then inr tt
  else inl (RangeError "Invalid time value").

Definition followingFilter (pubkey : string) : NostrFilter :=
  {| kinds := [3]; authors := Some [pubkey]; tagFilters := []; limit := Some 1 |}.

Definition followersFilter (pubkey : string) : NostrFilter :=
  {| kinds := [3]; authors := None; tagFilters := [("#p", [pubkey])];
     limit := Some 10000 |}.

(** [(a, b) => b.created_at - a.created_at]. *)
Definition byCreatedAtDesc (a b : Event.t) : Z :=
  Event.created_at b - Event.created_at a.

(** [tags.filter(tag => tag[0] === 'p')], then
    [.filter(tag => tag[1]).map(tag => tag[1])]. *)
Definition extractFollowing (contactList : Event.t) : list (option string) :=
  let pTags := filter (fun tag => strict_eq (nth_error tag 0) "p") (Event.tags contactList) in
  map (fun tag => nth_error tag 1)
      (filter (fun tag => truthy (nth_error tag 1)) pTags).

(** [new Set()], [forEach(event => followerPubkeys.add(event.pubkey))],
    [Array.from(followerPubkeys)]. *)
Definition collectFollowers (contactListEvents : list Event.t) : list string :=
  fold_left (fun followerPubkeys event =>
               set_add string_dec (Event.pubkey event) followerPubkeys)
            contactListEvents (empty_set string).

(** ** Relay configuration *)

Definition NIP50_SUPPORTED_RELAYS : list string :=
  [ "relay.divine.video";
    "relay.nostr.band";
    "relay.primal.net";
    "relay.nostr.wine";
    "relay.openvine.co";
    "relay2.openvine.co";
    "relay3.openvine.co" ].

Section RelayConfig.

(** [new URL(relayUrl)] of the platform: throws on a string that does not
    parse. *)
Variable newURL : string -> Js URL.

Definition supportsNIP50 (relayUrl : string) : Js bool :=
  catch
    (url <- newURL relayUrl ;;
     let hostname := hostname url in
     ret (includes NIP50_SUPPORTED_RELAYS hostname))
    (fun _ => ret false).

End RelayConfig.

(** ** The hooks *)

(** The guard [if (!pubkey) return ..] of a [string | undefined] argument
    holds for [undefined] and for the empty string; past it, the argument is
    a string. *)

Section Hooks.

Variable nostr : NostrQuery.

Definition useVideoSocialMetrics (videoId : string) (videoPubkey vineId : option string)
    (context : QueryFunctionContext) : Js VideoSocialMetrics :=
  let signal := SignalAny [signal context; SignalTimeout 3000] in
  catch
    (let filters := socialMetricsFilters videoId videoPubkey vineId in
     allEvents <- nostr filters signal ;;
     ret (metricsOfEvents allEvents))
    (fun _ => ret zeroMetrics).

Definition useVideoUserInteractions (videoId : string)
    (userPubkey videoPubkey vineId : option string)
    (context : QueryFunctionContext) : Js VideoUserInteractions :=
  match userPubkey with
  | Some viewer =>
      if negb (truthy userPubkey) then ret emptyInteractions
      else
        let signal := SignalAny [signal context; SignalTimeout 2000] in
        catch
          (let filters := userInteractionFilters videoId viewer videoPubkey vineId in
           allEvents <- nostr filters signal ;;
           let events := dedupEvents allEvents in
           deleteEvents <- nostr (deleteFilters viewer events) signal ;;
           ret (interactionsOfEvents events deleteEvents))
          (fun _ => ret emptyInteractions)
  | None => ret emptyInteractions
  end.

Definition useFollowing (pubkey : option string) (context : QueryFunctionContext)
  : Js (list (option string)) :=
  match pubkey with
  | Some subject =>
      if negb (truthy pubkey) then ret []
      else
        let signal := SignalAny [signal context; SignalTimeout 10000] in
        catch
          (let queryFilter := followingFilter subject in
           contactListEvents <- nostr [queryFilter] signal ;;
           if (length contactListEvents =? 0)%nat then ret []
           else
             (* [sort(..)[0]]; reading a field of [undefined] throws *)
             match nth_error (sort byCreatedAtDesc contactListEvents) 0 with
             | Some contactList =>
                 (* the argument of the log line
                    [new Date(contactList.created_at * 1000).toISOString()] *)
                 _ <- Date_toISOString (Event.created_at contactList * 1000) ;;
                 ret (extractFollowing contactList)
             | None => raise (TypeError "contactList is undefined")
             end)
          (fun _ => ret [])
  | None => ret []
  end.

Definition useFollowers (pubkey : option string) (context : QueryFunctionContext)
  : Js (list string) :=
  match pubkey with
  | Some subject =>
      if negb (truthy pubkey) then ret []
      else
        let signal := SignalAny [signal context; SignalTimeout 15000] in
        catch
          (let queryFilter := followersFilter subject in
           contactListEvents <- nostr [queryFilter] signal ;;
           if (length contactListEvents =? 0)%nat then ret []
           else ret (collectFollowers contactListEvents))
          (fun _ => ret [])
  | None => ret []
  end.

End Hooks.

(** ** The classification in the specification's words *)

(** A like: a reaction (kind 7) whose content is one of the three positive
    tokens. *)
Definition likeTokens : list string := ["+"; "❤️"; "👍"].

Definition isLike (e : Event.t) : bool :=
  (Event.kind e =? 7) && includes likeTokens (Event.content e).

(** A repost: kind 6. *)
Definition isRepost (e : Event.t) : bool := Event.kind e =? 6.

(** A comment: a text note (kind 1) or a structured comment (kind 1111). *)
Definition isComment (e : Event.t) : bool :=
  (Event.kind e =? 1) || (Event.kind e =? 1111).

(** A view: a payment receipt (kind 9735). *)
Definition isView (e : Event.t) : bool := Event.kind e =? 9735.

(** How many events of a list a classifier accepts. *)
Definition countOf (p : Event.t -> bool) (l : list Event.t) : Z :=
  Z.of_nat (length (filter p l)).

(** The entries of a map under another key than [k]. *)
Definition keyIsNot {V : Type} (k : string) (kv : string * V) : bool :=
  negb (fst kv =? k)%string.

(** The events of a response that do not carry the identifier [k]. *)
Definition withoutId (k : string) (l : list Event.t) : list Event.t :=
  filter (fun e => negb (Event.id e =? k)%string) l.

(** [deleteEvent] retracts [e] for [viewer]: a delete request (kind 5) of
    the viewer, issued later, one of whose ['e'] tags names [e]. *)
Definition retracts (viewer : string) (deleteEvent e : Event.t) : Prop :=
  Event.kind deleteEvent = 5 /\
  Event.pubkey deleteEvent = viewer /\
  Event.created_at e < Event.created_at deleteEvent /\
  exists tag, In tag (Event.tags deleteEvent) /\
              nth_error tag 0 = Some "e" /\
              nth_error tag 1 = Some (Event.id e).

(** The two flags agree with the two identifiers. *)
Definition flagsMatchIds (r : VideoUserInteractions) : Prop :=
  (hasLiked r = true <-> likeEventId r <> None) /\
  (hasReposted r = true <-> repostEventId r <> None).

(** The following list in the specification's words: the value of every tag
    whose key is ['p'] and whose value is present and non-empty, in tag
    order. *)
Definition followedIdentities (tags : list (list string)) : list string :=
  flat_map (fun tag =>
              match tag with
              | key :: value :: _ =>
                  if (key =? "p")%string && negb (value =? "")%string
                  then [value] else []
              | _ => []
              end) tags.

(** ** An in-memory relay and a URL parser, to run the code on concrete states *)

(** The tag named by the filter key ['#x'] is [x]. *)
Definition tagNameOf (filterKey : string) : string :=
  match filterKey with
  | String "#"%char name => name
  | _ => filterKey
  end.

Definition hasTagValue (e : Event.t) (name : string) (values : list string) : bool :=
  existsb (fun tag =>
             strict_eq (nth_error tag 0) name &&
             match nth_error tag 1 with
             | Some v => includes values v
             | None => false
             end) (Event.tags e).

(** A filter is the conjunction of its fields, each a disjunction of its
    values. *)
Definition matchesFilter (f : NostrFilter) (e : Event.t) : bool :=
  existsb (Z.eqb (Event.kind e)) (kinds f)
  && match authors f with
     | Some l => includes l (Event.pubkey e)
     | None => true
     end
  && forallb (fun tf => hasTagValue e (tagNameOf (fst tf)) (snd tf)) (tagFilters f).

Definition applyLimit (f : NostrFilter) (l : list Event.t) : list Event.t :=
  match limit f with
  | Some n => firstn (Z.to_nat n) l
  | None => l
  end.

(** The answer of a relay holding [store]: filter after filter, the stored
    events the filter matches, newest first and cut at the filter's limit; an
    event matched by two filters comes twice. *)
Definition relayAnswer (store : list Event.t) (filters : list NostrFilter)
  : list Event.t :=
  flat_map (fun f => applyLimit f (sort byCreatedAtDesc (filter (matchesFilter f) store)))
           filters.

Definition memoryRelay (store : list Event.t) : NostrQuery :=
  fun filters _ => inr (relayAnswer store filters).

(** A pool of relays: the answers of its members, one after the other. *)
Definition poolRelay (stores : list (list Event.t)) : NostrQuery :=
  fun filters _ => inr (flat_map (fun store => relayAnswer store filters) stores).

(** A relay every query of which fails. *)
Definition failingRelay (err : JsError) : NostrQuery :=
  fun _ _ => inl err.

(** A relay that answers the interaction queries from [store] and fails on
    the delete query. *)
Definition failingDeletesRelay (store : list Event.t) (err : JsError) : NostrQuery :=
  fun filters sig =>
    if existsb (fun f => existsb (Z.eqb 5) (kinds f)) filters
    then inl err
    else memoryRelay store filters sig.

(** A parser for URLs of the shape [wss://host], as the relay configuration
    writes them; every other string is rejected. *)
Definition wssURL (s : string) : Js URL :=
  if String.prefix "wss://" s
  then inr {| protocol := "wss:";
              hostname := substring 6 (String.length s - 6) s;
              port := "" |}
  else inl (TypeError "Invalid URL").

Definition queryContext : QueryFunctionContext := {| signal := ContextSignal 0 |}.

Definition reaction (id author target : string) (at_ : Z) (content : string) : Event.t :=
  {| Event.id := id; Event.pubkey := author; Event.created_at := at_;
     Event.kind := 7; Event.tags := [["e"; target]; ["p"; "carol"]];
     Event.content := content |}.

Definition repost (id author target : string) (at_ : Z) : Event.t :=
  {| Event.id := id; Event.pubkey := author; Event.created_at := at_;
     Event.kind := 6; Event.tags := [["e"; target]]; Event.content := "" |}.

Definition deletion (id author deleted : string) (at_ : Z) : Event.t :=
  {| Event.id := id; Event.pubkey := author; Event.created_at := at_;
     Event.kind := 5; Event.tags := [["e"; deleted]]; Event.content := "" |}.

Definition contactList (id author : string) (at_ : Z) (tags : list (list string))
  : Event.t :=
  {| Event.id := id; Event.pubkey := author; Event.created_at := at_;
     Event.kind := 3; Event.tags := tags; Event.content := "" |}.

(** Alice likes the video, retracts the like, and likes it again. *)
Definition relikeStore : list Event.t :=
  [ reaction "like1" "alice" "video" 100 "+";
    deletion "del1" "alice" "like1" 200;
    reaction "like2" "alice" "video" 300 "+" ].

(** Alice likes the video and retracts the like; she also reposts it. *)
Definition unlikeStore : list Event.t :=
  [ reaction "like1" "alice" "video" 100 "❤️";
    repost "repost1" "alice" "video" 150;
    deletion "del1" "alice" "like1" 200 ].

(** A comment that names the video under both ['e'] and ['E']. *)
Definition videoComment : Event.t :=
  {| Event.id := "comment1"; Event.pubkey := "bob"; Event.created_at := 50;
     Event.kind := 1111; Event.tags := [["e"; "video"]; ["E"; "video"]];
     Event.content := "nice" |}.

(** The comment, a like, a thumbs-down and a repost of the video. *)
Definition videoStore : list Event.t :=
  [ videoComment;
    reaction "like1" "alice" "video" 100 "👍";
    reaction "dislike1" "bob" "video" 110 "-";
    repost "repost1" "alice" "video" 150 ].

(** The same relay after a reaction to another video came in. *)
Definition laterVideoStore : list Event.t :=
  videoStore ++ [ reaction "like9" "alice" "other-video" 400 "+" ].

(** Bob follows the subject in two contact lists, Alice in one. *)
Definition followersStore : list Event.t :=
  [ contactList "list1" "bob" 10 [["p"; "carol"]];
    contactList "list2" "alice" 20 [["p"; "carol"]; ["p"; "dave"]];
    contactList "list3" "bob" 30 [["p"; "carol"]; ["p"; "erin"]] ].

(** A first relay still holds Carol's old contact list; a second one holds
    her newest, with three ['p'] tags, the second with an empty value. *)
Definition followingStores : list (list Event.t) :=
  [ [ contactList "old" "carol" 10 [["p"; "zed"]] ];
    [ contactList "new" "carol" 20 [["p"; "alice"]; ["p"; ""]; ["p"; "bob"]] ] ].

(** ** Relay endpoints *)

Definition DIVINE_RELAY_URL : string := "wss://relay.divine.video".

Module RelayConfig.
Record t : Type := mk { url : string; name : string }.
End RelayConfig.

Definition DIVINE_RELAY : RelayConfig.t :=
  {| RelayConfig.url := DIVINE_RELAY_URL; RelayConfig.name := "Divine Video" |}.

Definition DEFAULT_RELAYS : list string :=
  [ DIVINE_RELAY_URL;
    "wss://relay.damus.io";
    "wss://nos.lol";
    "wss://relay.nostr.band" ].

Definition RELAY_OPTIONS : list RelayConfig.t :=
  [ DIVINE_RELAY;
    {| RelayConfig.url := "wss://relay.damus.io"; RelayConfig.name := "Damus" |};
    {| RelayConfig.url := "wss://nos.lol"; RelayConfig.name := "nos.lol" |};
    {| RelayConfig.url := "wss://relay.nostr.band"; RelayConfig.name := "Nostr Band" |};
    {| RelayConfig.url := "wss://relay.primal.net"; RelayConfig.name := "Primal" |} ].

(** ** Page layout *)

(** The string union ['2xl' | '4xl' | '6xl' | '7xl' | 'full']. *)
Inductive MaxWidth : Type := W2xl | W4xl | W6xl | W7xl | Wfull.

(** The string a [MaxWidth] is. *)
Definition MaxWidth_string (w : MaxWidth) : string :=
  match w with
  | W2xl => "2xl"
  | W4xl => "4xl"
  | W6xl => "6xl"
  | W7xl => "7xl"
  | Wfull => "full"
  end.

(** The table [maxWidthClasses], read at a key. *)
Definition maxWidthClasses (w : MaxWidth) : string :=
  match w with
  | W2xl => "max-w-2xl"
  | W4xl => "max-w-4xl"
  | W6xl => "max-w-6xl"
  | W7xl => "max-w-7xl"
  | Wfull => "max-w-full"
  end.

(** What [PageLayout] renders: [div] elements around the caller's
    [children], which it does not inspect. *)
Inductive LayoutNode (C : Type) : Type :=
| Children (children : C)
| Div (className : string) (content : LayoutNode C).

Arguments Children {C} children.
Arguments Div {C} className content.

Section PageLayout.

Context {C : Type}.

(** [cn] of the class-name utilities: joins and merges class names; an
    absent argument is [None]. *)
Variable cn : list (option string) -> string.

(** The props [maxWidth] and [noContentWrapper] have the defaults ['2xl']
    and [false]; an absent prop is [None]. *)
Definition PageLayout (children : C) (maxWidth : option MaxWidth)
    (className : option string) (contentMaxWidth : option MaxWidth)
    (noContentWrapper : option bool) : LayoutNode C :=
  let maxWidth := match maxWidth with Some w => w | None => W2xl end in
  let noContentWrapper :=
    match noContentWrapper with Some b => b | None => false end in
  let maxWidthClass := maxWidthClasses maxWidth in
  let contentMaxWidthClass :=
    match contentMaxWidth with
    | Some w => maxWidthClasses w
    | None => maxWidthClass
    end in
  Div (cn [Some "container mx-auto px-4 py-6"; className])
      (if noContentWrapper then Children children
       else Div (cn [Some contentMaxWidthClass; Some "mx-auto"]) (Children children)).

End PageLayout.

(** How deep under the root the caller's children sit. *)
Fixpoint childrenDepth {C : Type} (n : LayoutNode C) : nat :=
  match n with
  | Children _ => 0
  | Div _ content => S (childrenDepth content)
  end.

(** ** Follow list dialog *)

Module Dialog.

(** The prop [type: 'followers' | 'following']. *)
Inductive ListType : Type := followers | following.

(** The two fields the dialog reads of a query result; the elements of
    [data] are JavaScript values. *)
Record QueryResult : Type := mkResult {
  data : option (list (option string));
  isLoading : bool
}.

(** One [<UserListItem key=.. pubkey=.. currentUserPubkey=.. />]. *)
Record UserListItem : Type := mkItem {
  key : option string;
  pubkey : option string;
  currentUserPubkey : option string
}.

(** The content of the scroll area. *)
Inductive Body : Type :=
| Skeletons (n : nat)
| Items (items : list UserListItem)
| EmptyText (text : string).

Record View : Type := mkView { title : string; body : Body }.

(** [`${n}`] for an array length. *)
Definition showLength (n : nat) : string :=
  NilZero.string_of_uint (Nat.to_uint n).

(** [userList?.length || 0]. *)
Definition lengthOrZero (userList : option (list (option string))) : nat :=
  match userList with
  | Some l => length l
  | None => 0%nat
  end.

Section Component.

(** The hooks, as the component sees them: from the argument to the query
    result; and the [pubkey] of the current user, if any. *)
Variables useFollowersHook useFollowingHook : option string -> QueryResult.
Variable currentUser : option string.

Definition FollowListDialog (subject : string) (type : ListType) : View :=
  let followersResult :=
    useFollowersHook (match type with followers => Some subject | following => None end) in
  let followingResult :=
    useFollowingHook (match type with following => Some subject | followers => None end) in
  let userList :=
    match type with followers => data followersResult | following => data followingResult end in
  let loading :=
    match type with
    | followers => isLoading followersResult
    | following => isLoading followingResult
    end in
  let title :=
    match type with
    | followers => ("Followers (" ++ showLength (lengthOrZero userList) ++ ")")%string
    | following => ("Following (" ++ showLength (lengthOrZero userList) ++ ")")%string
    end in
  {| title := title;
     body :=
       if loading then Skeletons 5
       else
         match userList with
         | Some (u :: l) =>
             Items (map (fun userPubkey =>
                           {| key := userPubkey; pubkey := userPubkey;
                              currentUserPubkey := currentUser |}) (u :: l))
         | _ =>
             EmptyText (match type with
                        | followers => "No followers yet"
                        | following => "Not following anyone yet"
                        end)
         end |}.

End Component.

End Dialog.

(** A plain [cn], to run the layout: it joins the class names present with
    spaces. *)
Definition joinClasses (classes : list (option string)) : string :=
  String.concat " " (flat_map (fun c => match c with
                                        | Some s => [s]
                                        | None => []
                                        end) classes).

(** A contact list dated one second past the last valid date. *)
Definition farFutureStore : list Event.t :=
  [ contactList "far" "carol" 8640000000001 [["p"; "alice"]; ["p"; ""]; ["p"; "bob"]] ].

(** Some event of [deleteEvents] has an ['e'] tag whose value is the
    identifier of [e]. *)
Definition namedByDelete (deleteEvents : list Event.t) (e : Event.t) : Prop :=
  exists d tag, In d deleteEvents /\ In tag (Event.tags d) /\
                nth_error tag 0 = Some "e" /\
                nth_error tag 1 = Some (Event.id e).

(** A relay that answers every query with the same events, whatever the
    filters ask. *)
Definition fixedRelay (answer : list Event.t) : NostrQuery :=
  fun _ _ => inr answer.

(** * Properties *)

(** ** The hooks as functions of the relay's answers *)

(** Unfold the operations of the error monad. *)
Ltac js_run :=
  cbv beta iota zeta delta [catch bind ret raise Exception_either Monad_either].

Section HookEquations.

Variable nostr : NostrQuery.

Lemma useVideoSocialMetrics_eq videoId videoPubkey vineId context :
  useVideoSocialMetrics nostr videoId videoPubkey vineId context =
  match nostr (socialMetricsFilters videoId videoPubkey vineId)
              (SignalAny [signal context; SignalTimeout 3000]) with
  | inr allEvents => inr (metricsOfEvents allEvents)
  | inl _ => inr zeroMetrics
  end.
Proof.
  unfold useVideoSocialMetrics. js_run.
  destruct (nostr _ _); reflexivity.
Qed.

Lemma useVideoUserInteractions_eq videoId viewer videoPubkey vineId context :
  truthy (Some viewer) = true ->
  useVideoUserInteractions nostr videoId (Some viewer) videoPubkey vineId context =
  let signal := SignalAny [signal context; SignalTimeout 2000] in
  match nostr (userInteractionFilters videoId viewer videoPubkey vineId) signal with
  | inr allEvents =>
      match nostr (deleteFilters viewer (dedupEvents allEvents)) signal with
      | inr deleteEvents =>
          inr (interactionsOfEvents (dedupEvents allEvents) deleteEvents)
      | inl _ => inr emptyInteractions
      end
  | inl _ => inr emptyInteractions
  end.
Proof.
  intros Hv. unfold useVideoUserInteractions. rewrite Hv. js_run.
  destruct (nostr (userInteractionFilters _ _ _ _) _) as [err | allEvents]; [reflexivity |].
  destruct (nostr (deleteFilters _ _) _); reflexivity.
Qed.

Lemma useVideoUserInteractions_no_viewer videoId userPubkey videoPubkey vineId context :
  truthy userPubkey = false ->
  useVideoUserInteractions nostr videoId userPubkey videoPubkey vineId context =
  inr emptyInteractions.
Proof.
  intros Hv. unfold useVideoUserInteractions.
  destruct userPubkey; [rewrite Hv |]; reflexivity.
Qed.

Lemma useFollowing_eq subject context :
  truthy (Some subject) = true ->
  useFollowing nostr (Some subject) context =
  match nostr [followingFilter subject]
              (SignalAny [signal context; SignalTimeout 10000]) with
  | inr contactListEvents =>
      match sort byCreatedAtDesc contactListEvents with
      | contactList :: _ =>
          if validTimeValue (Event.created_at contactList * 1000)
          then inr (extractFollowing contactList)
          else inr []
      | [] => inr []
      end
  | inl _ => inr []
  end.
Proof.
  intros Hv. unfold useFollowing. rewrite Hv. js_run.
  destruct (nostr _ _) as [err | l]; [reflexivity |].
  destruct l as [| e l]; [reflexivity |].
  cbn [length Nat.eqb negb].
  destruct (sort byCreatedAtDesc (e :: l)) as [| c rest]; [reflexivity |].
  cbn [nth_error]. unfold Date_toISOString.
  destruct (validTimeValue (Event.created_at c * 1000)); reflexivity.
Qed.

Lemma useFollowers_eq subject context :
  truthy (Some subject) = true ->
  useFollowers nostr (Some subject) context =
  match nostr [followersFilter subject]
              (SignalAny [signal context; SignalTimeout 15000]) with
  | inr contactListEvents => inr (collectFollowers contactListEvents)
  | inl _ => inr []
  end.
Proof.
  intros Hv. unfold useFollowers. rewrite Hv. js_run.
  destruct (nostr _ _) as [err | l]; [reflexivity |].
  destruct l; reflexivity.
Qed.

Lemma useFollow_no_subject pubkey context :
  truthy pubkey = false ->
  useFollowing nostr pubkey context = inr [] /\
  useFollowers nostr pubkey context = inr [].
Proof.
  intros Hv. unfold useFollowing, useFollowers.
  destruct pubkey; [rewrite Hv |]; split; reflexivity.
Qed.

End HookEquations.

(** ** Insertion-ordered maps *)

Section MapSet.

Context {V : Type}.
Implicit Types (m : list (string * V)) (k : string) (v : V).

Lemma Map_set_in_keys m k v k' :
  In k' (map fst (Map_set m k v)) <-> k' = k \/ In k' (map fst m).
Proof.
  induction m as [| [k0 v0] m IH]; simpl.
  - intuition congruence.
  - destruct (String.eqb_spec k0 k) as [-> | Hne]; simpl.
    + intuition.
    + rewrite IH. intuition.
Qed.

Lemma Map_set_NoDup m k v :
  NoDup (map fst m) -> NoDup (map fst (Map_set m k v)).
Proof.
  induction m as [| [k0 v0] m IH]; simpl; intros Hnd.
  - constructor; [intros [] | constructor].
  - inversion Hnd as [| ? ? Hnotin Hnd']; subst.
    destruct (String.eqb_spec k0 k) as [-> | Hne]; simpl.
    + constructor; assumption.
    + constructor; [| auto].
      rewrite Map_set_in_keys. intros [-> | Hin]; [congruence | contradiction].
Qed.

Lemma Map_set_in_same m k v : In (k, v) (Map_set m k v).
Proof.
  induction m as [| [k0 v0] m IH]; simpl; [now left |].
  destruct (String.eqb_spec k0 k) as [-> | Hne]; simpl; [now left | now right].
Qed.

Lemma Map_set_in_other m k v k' v' :
  k' <> k -> In (k', v') m -> In (k', v') (Map_set m k v).
Proof.
  intros Hne. induction m as [| [k0 v0] m IH]; simpl; [tauto |].
  intros [Heq | Hin].
  - inversion Heq; subst.
    destruct (String.eqb_spec k' k); [congruence | now left].
  - destruct (String.eqb_spec k0 k); simpl; [now right | right; auto].
Qed.

Lemma Map_set_in_inv m k v k' v' :
  In (k', v') (Map_set m k v) -> (k' = k /\ v' = v) \/ In (k', v') m.
Proof.
  induction m as [| [k0 v0] m IH]; simpl.
  - intros [Heq | []]. inversion Heq; auto.
  - destruct (String.eqb_spec k0 k) as [-> | Hne]; simpl.
    + intros [Heq | Hin]; [inversion Heq; auto | auto].
    + intros [Heq | Hin]; [auto |]. destruct (IH Hin); auto.
Qed.

Lemma filter_Map_set m k v k' :
  filter (keyIsNot k') (Map_set m k v) =
  if (k =? k')%string then filter (keyIsNot k') m
  else Map_set (filter (keyIsNot k') m) k v.
Proof.
  induction m as [| [k0 v0] m IH]; cbn [Map_set filter].
  - unfold keyIsNot; cbn [fst]. destruct (k =? k')%string; reflexivity.
  - destruct (String.eqb_spec k0 k) as [-> | Hne]; cbn [filter].
    + unfold keyIsNot; cbn [fst].
      destruct (String.eqb_spec k k'); cbn [negb]; [reflexivity |].
      cbn [Map_set]. rewrite String.eqb_refl. reflexivity.
    + rewrite IH. unfold keyIsNot; cbn [fst].
      destruct (String.eqb_spec k0 k'), (String.eqb_spec k k');
        cbn [negb Map_set]; try reflexivity; try congruence.
      destruct (String.eqb_spec k0 k); [congruence | reflexivity].
Qed.

Lemma filter_absent_key m k :
  ~ In k (map fst m) -> filter (keyIsNot k) m = m.
Proof.
  induction m as [| [k0 v0] m IH]; simpl; intros Hnotin; [reflexivity |].
  unfold keyIsNot at 1; simpl.
  destruct (String.eqb_spec k0 k); [tauto |]. simpl. f_equal. tauto.
Qed.

(** In a map, the entry of a key is the only one a predicate on values can
    see there: counting splits into that entry and the rest. *)
Lemma count_split_entry (p : V -> bool) m k v :
  NoDup (map fst m) -> In (k, v) m ->
  length (filter p (map snd m)) =
  ((if p v then 1 else 0) + length (filter p (map snd (filter (keyIsNot k) m))))%nat.
Proof.
  induction m as [| [k0 v0] m IH]; [intros _ [] |].
  intros Hnd Hin. cbn [map fst] in Hnd.
  inversion Hnd as [| ? ? Hnotin Hnd']; subst.
  cbn [filter map snd]. unfold keyIsNot at 1; cbn [fst].
  destruct (String.eqb_spec k0 k) as [-> | Hne]; cbn [negb].
  - assert (v0 = v) as ->.
    { destruct Hin as [Heq | Hin]; [congruence |].
      exfalso. apply Hnotin. now apply (in_map fst) in Hin. }
    rewrite (filter_absent_key _ _ Hnotin).
    destruct (p v); reflexivity.
  - destruct Hin as [Heq | Hin]; [congruence |].
    cbn [map snd filter]. specialize (IH Hnd' Hin).
    destruct (p v0), (p v); cbn [length] in *; lia.
Qed.

End MapSet.

(** ** Deduplication by identifier *)

Section Dedup.

Local Abbreviation setEvent :=
  (fun (m : list (string * Event.t)) (event : Event.t) =>
     Map_set m (Event.id event) event).

Lemma dedup_fold_NoDup l m :
  NoDup (map fst m) -> NoDup (map fst (fold_left setEvent l m)).
Proof.
  revert m. induction l as [| e l IH]; intros m Hnd; cbn [fold_left]; [assumption |].
  apply IH. now apply Map_set_NoDup.
Qed.

Lemma dedup_fold_filter l m k :
  filter (keyIsNot k) (fold_left setEvent l m) =
  fold_left setEvent (withoutId k l) (filter (keyIsNot k) m).
Proof.
  revert m. induction l as [| e l IH]; intros m; cbn [fold_left]; [reflexivity |].
  rewrite IH, filter_Map_set. unfold withoutId at 2. cbn [filter].
  fold (withoutId k l).
  destruct (Event.id e =? k)%string; reflexivity.
Qed.

Lemma dedup_fold_keeps l m k v :
  In (k, v) m -> (forall e, In e l -> Event.id e <> k) ->
  In (k, v) (fold_left setEvent l m).
Proof.
  revert m. induction l as [| e l IH]; intros m Hin Hl; cbn [fold_left]; [assumption |].
  apply IH.
  - apply Map_set_in_other; [| assumption].
    intros Heq. apply (Hl e); [now left | now symmetry].
  - intros e' He'. apply Hl. now right.
Qed.

Lemma dedup_fold_in_inv l m k v :
  In (k, v) (fold_left setEvent l m) ->
  In (k, v) m \/ (In v l /\ Event.id v = k).
Proof.
  revert m. induction l as [| e l IH]; intros m; cbn [fold_left]; [now left |].
  intros Hin. destruct (IH _ Hin) as [Hm | [Hl Hid]].
  - destruct (Map_set_in_inv _ _ _ _ _ Hm) as [[-> ->] | Hm'];
      [right; split; [now left | reflexivity] | now left].
  - right. split; [now right | assumption].
Qed.

Lemma dedup_fold_keys l m k :
  In k (map fst (fold_left setEvent l m)) <->
  In k (map fst m) \/ In k (map Event.id l).
Proof.
  revert m. induction l as [| e l IH]; intros m; cbn [fold_left map].
  - simpl. tauto.
  - rewrite IH, Map_set_in_keys. simpl. intuition.
Qed.

Lemma uniqueEvents_NoDup l : NoDup (map fst (uniqueEvents l)).
Proof. apply dedup_fold_NoDup. constructor. Qed.

Lemma uniqueEvents_entry l k v :
  In (k, v) (uniqueEvents l) -> In v l /\ Event.id v = k.
Proof.
  intros Hin. destruct (dedup_fold_in_inv _ _ _ _ Hin) as [[] | H]. exact H.
Qed.

(** The entry of an identifier is the last event of the response that
    carries it. *)
Lemma uniqueEvents_last l1 e l2 :
  (forall e', In e' l2 -> Event.id e' <> Event.id e) ->
  In (Event.id e, e) (uniqueEvents (l1 ++ e :: l2)).
Proof.
  intros Hl2. unfold uniqueEvents. rewrite fold_left_app. cbn [fold_left].
  apply dedup_fold_keeps; [apply Map_set_in_same | assumption].
Qed.

Lemma dedupEvents_withoutId k l :
  map snd (filter (keyIsNot k) (uniqueEvents l)) = dedupEvents (withoutId k l).
Proof.
  unfold dedupEvents, Map_values, uniqueEvents.
  now rewrite dedup_fold_filter.
Qed.

Lemma dedupEvents_in l e : In e (dedupEvents l) -> In e l.
Proof.
  unfold dedupEvents, Map_values. rewrite in_map_iff.
  intros [[k v] [<- Hin]]. now apply uniqueEvents_entry in Hin.
Qed.

Lemma dedupEvents_ids l : map Event.id (dedupEvents l) = map fst (uniqueEvents l).
Proof.
  unfold dedupEvents, Map_values. rewrite map_map.
  apply map_ext_in. intros [k v] Hin.
  apply uniqueEvents_entry in Hin. now destruct Hin.
Qed.

Lemma dedupEvents_NoDup l : NoDup (map Event.id (dedupEvents l)).
Proof. rewrite dedupEvents_ids. apply uniqueEvents_NoDup. Qed.

Lemma dedupEvents_id_in l k :
  In k (map Event.id (dedupEvents l)) <-> In k (map Event.id l).
Proof.
  rewrite dedupEvents_ids. unfold uniqueEvents.
  rewrite dedup_fold_keys. simpl. tauto.
Qed.

Lemma dedupEvents_nil : dedupEvents [] = [].
Proof. reflexivity. Qed.

(** However often an identifier occurs, a classifier sees its event once. *)
Lemma countOf_dedup_split (p : Event.t -> bool) l1 e l2 :
  (forall e', In e' l2 -> Event.id e' <> Event.id e) ->
  countOf p (dedupEvents (l1 ++ e :: l2)) =
  (if p e then 1 else 0)
  + countOf p (dedupEvents (withoutId (Event.id e) (l1 ++ e :: l2))).
Proof.
  intros Hl2. unfold countOf.
  rewrite <- dedupEvents_withoutId.
  unfold dedupEvents at 1, Map_values.
  rewrite (count_split_entry p _ (Event.id e) e).
  - destruct (p e); lia.
  - apply uniqueEvents_NoDup.
  - now apply uniqueEvents_last.
Qed.

End Dedup.

(** ** Counting *)

Lemma isPositiveReaction_tokens c :
  isPositiveReaction c = includes likeTokens c.
Proof.
  unfold isPositiveReaction, likeTokens, includes.
  rewrite (String.eqb_sym c "+"), (String.eqb_sym c "❤️"), (String.eqb_sym c "👍").
  now rewrite orb_false_r, orb_assoc.
Qed.

Lemma isPositiveReaction_iff c :
  isPositiveReaction c = true <-> c = "+" \/ c = "❤️" \/ c = "👍".
Proof.
  unfold isPositiveReaction. rewrite !orb_true_iff, !String.eqb_eq. tauto.
Qed.

Lemma countEvent_classify m e :
  countEvent m e =
  {| likeCount := likeCount m + (if isLike e then 1 else 0);
     repostCount := repostCount m + (if isRepost e then 1 else 0);
     viewCount := viewCount m + (if isView e then 1 else 0);
     commentCount := commentCount m + (if isComment e then 1 else 0) |}.
Proof.
  unfold countEvent, isLike, isRepost, isView, isComment. cbv zeta.
  rewrite <- isPositiveReaction_tokens.
  destruct m as [lc rc vc cc]; cbn [likeCount repostCount viewCount commentCount].
  repeat match goal with
         | |- context [Event.kind e =? ?n] =>
             destruct (Z.eqb_spec (Event.kind e) n)
         end;
    try lia;
    cbn [andb orb]; try destruct (isPositiveReaction (Event.content e));
    f_equal; lia.
Qed.

Lemma fold_countEvent l m :
  fold_left countEvent l m =
  {| likeCount := likeCount m + countOf isLike l;
     repostCount := repostCount m + countOf isRepost l;
     viewCount := viewCount m + countOf isView l;
     commentCount := commentCount m + countOf isComment l |}.
Proof.
  revert m. induction l as [| e l IH]; intros m; cbn [fold_left].
  - destruct m; unfold countOf; cbn. f_equal; lia.
  - rewrite IH, countEvent_classify. unfold countOf. cbn [filter].
    cbn [likeCount repostCount viewCount commentCount].
    destruct (isLike e), (isRepost e), (isView e), (isComment e);
      cbn [length]; f_equal; lia.
Qed.

Lemma metricsOfEvents_counts l :
  metricsOfEvents l =
  {| likeCount := countOf isLike (dedupEvents l);
     repostCount := countOf isRepost (dedupEvents l);
     viewCount := countOf isView (dedupEvents l);
     commentCount := countOf isComment (dedupEvents l) |}.
Proof.
  unfold metricsOfEvents. rewrite fold_countEvent. reflexivity.
Qed.

Lemma metricsOfEvents_once l1 e l2 :
  (forall e', In e' l2 -> Event.id e' <> Event.id e) ->
  metricsOfEvents (l1 ++ e :: l2) =
  countEvent (metricsOfEvents (withoutId (Event.id e) (l1 ++ e :: l2))) e.
Proof.
  intros Hl2. rewrite countEvent_classify, !metricsOfEvents_counts.
  cbn [likeCount repostCount viewCount commentCount].
  rewrite !(countOf_dedup_split _ l1 e l2 Hl2).
  f_equal; lia.
Qed.


(** ** The deletion set *)

Lemma strict_eq_iff v s : strict_eq v s = true <-> v = Some s.
Proof.
  destruct v as [s' |]; simpl; [| split; discriminate].
  rewrite String.eqb_eq. split; congruence.
Qed.

Lemma truthy_Some s : truthy (Some s) = true <-> s <> "".
Proof.
  simpl. rewrite negb_true_iff. apply String.eqb_neq.
Qed.

(** A tag that names a deleted event: key ['e'] and a non-empty value. *)
Local Abbreviation namesDeleted tag v :=
  (nth_error tag 0 = Some "e" /\ nth_error tag 1 = v /\ truthy v = true).

Lemma addDeletedTag_in v s tag :
  In v (addDeletedTag s tag) <-> In v s \/ namesDeleted tag v.
Proof.
  unfold addDeletedTag.
  destruct (strict_eq (nth_error tag 0) "e") eqn:E0;
    destruct (truthy (nth_error tag 1)) eqn:E1; cbn [andb];
    try rewrite set_add_iff.
  - apply strict_eq_iff in E0. split.
    + intros [-> | Hin]; [right | left]; auto.
    + intros [Hin | (_ & <- & _)]; auto.
  - split; [auto |]. intros [Hin | (_ & <- & Ht)]; [assumption | congruence].
  - split; [auto |]. intros [Hin | (H0 & _ & _)]; [assumption |].
    apply strict_eq_iff in H0. congruence.
  - split; [auto |]. intros [Hin | (_ & <- & Ht)]; [assumption | congruence].
Qed.

Lemma fold_addDeletedTag_in v tags s :
  In v (fold_left addDeletedTag tags s) <->
  In v s \/ exists tag, In tag tags /\ namesDeleted tag v.
Proof.
  revert s. induction tags as [| tag tags IH]; intros s; cbn [fold_left].
  - split; [auto |]. intros [Hin | (tag & [] & _)]. assumption.
  - rewrite IH, addDeletedTag_in. split.
    + intros [[Hin | Htag] | (tag' & Hin & Htag)]; eauto.
      * right. exists tag. split; [now left | assumption].
      * right. exists tag'. split; [now right | assumption].
    + intros [Hin | (tag' & [<- | Hin] & Htag)]; eauto.
  Qed.

Lemma fold_deleteEvents_in v deleteEvents s :
  In v (fold_left
          (fun deletedEventIds deleteEvent =>
             fold_left addDeletedTag (Event.tags deleteEvent) deletedEventIds)
          deleteEvents s) <->
  In v s \/
  exists deleteEvent tag,
    In deleteEvent deleteEvents /\ In tag (Event.tags deleteEvent) /\
    namesDeleted tag v.
Proof.
  revert s. induction deleteEvents as [| d l IH]; intros s; cbn [fold_left].
  - split; [auto |]. intros [Hin | (d & tag & [] & _)]. assumption.
  - rewrite IH, fold_addDeletedTag_in. split.
    + intros [[Hin | (tag & Hin & Htag)] | (d' & tag & Hd & Hin & Htag)].
      * now left.
      * right. exists d, tag. split; [now left | auto].
      * right. exists d', tag. split; [now right | auto].
    + intros [Hin | (d' & tag & [<- | Hd] & Hin & Htag)]; eauto 8.
Qed.

(** The deletion set holds exactly the non-empty values of the ['e'] tags of
    the delete events. *)
Lemma collectDeletedEventIds_in v deleteEvents :
  In v (collectDeletedEventIds deleteEvents) <->
  exists deleteEvent tag,
    In deleteEvent deleteEvents /\ In tag (Event.tags deleteEvent) /\
    namesDeleted tag v.
Proof.
  unfold collectDeletedEventIds. rewrite fold_deleteEvents_in.
  split; [intros [[] | H]; exact H | auto].
Qed.

Lemma retracts_deleted viewer deleteEvent e deleteEvents :
  In deleteEvent deleteEvents -> retracts viewer deleteEvent e ->
  Event.id e <> "" ->
  In (Some (Event.id e)) (collectDeletedEventIds deleteEvents).
Proof.
  intros Hin (_ & _ & _ & tag & Htag & H0 & H1) Hid.
  apply collectDeletedEventIds_in. exists deleteEvent, tag.
  repeat split; try assumption. now apply truthy_Some.
Qed.

(** ** The interaction loop *)

Section InteractionLoop.

Variable deletedEventIds : set (option string).

Local Abbreviation deleted e :=
  (set_mem value_eq_dec (Some (Event.id e)) deletedEventIds).

Lemma processEvent_deleted st e :
  In (Some (Event.id e)) deletedEventIds ->
  processEvent deletedEventIds st e = st.
Proof.
  intros Hin. unfold processEvent.
  now rewrite (set_mem_correct2 value_eq_dec _ _ Hin).
Qed.

Lemma processEvent_hasLiked st e :
  hasLiked (processEvent deletedEventIds st e) =
  hasLiked st || (negb (deleted e) && isLike e).
Proof.
  unfold processEvent, isLike. rewrite <- isPositiveReaction_tokens.
  destruct (deleted e); cbn [negb andb]; [now rewrite orb_false_r |].
  destruct ((Event.kind e =? 7) && isPositiveReaction (Event.content e));
    destruct (Event.kind e =? 6); cbn [hasLiked];
    rewrite ?orb_true_r, ?orb_false_r; reflexivity.
Qed.

Lemma processEvent_likeEventId st e :
  likeEventId (processEvent deletedEventIds st e) =
  if negb (deleted e) && isLike e then Some (Event.id e) else likeEventId st.
Proof.
  unfold processEvent, isLike. rewrite <- isPositiveReaction_tokens.
  destruct (deleted e); cbn [negb andb]; [reflexivity |].
  destruct ((Event.kind e =? 7) && isPositiveReaction (Event.content e));
    destruct (Event.kind e =? 6); reflexivity.
Qed.

Lemma processEvent_flagsMatchIds st e :
  flagsMatchIds st -> flagsMatchIds (processEvent deletedEventIds st e).
Proof.
  unfold flagsMatchIds, processEvent. intros [Hl Hr].
  destruct (deleted e); [now split |].
  destruct ((Event.kind e =? 7) && isPositiveReaction (Event.content e));
    destruct (Event.kind e =? 6);
    cbn [hasLiked hasReposted likeEventId repostEventId];
    split; try assumption; split; congruence.
Qed.

Lemma fold_processEvent_hasLiked l st :
  hasLiked (fold_left (processEvent deletedEventIds) l st) =
  hasLiked st || existsb (fun e => negb (deleted e) && isLike e) l.
Proof.
  revert st. induction l as [| e l IH]; intros st; cbn [fold_left existsb].
  - now rewrite orb_false_r.
  - now rewrite IH, processEvent_hasLiked, orb_assoc.
Qed.

Lemma fold_processEvent_likeEventId l st k :
  likeEventId (fold_left (processEvent deletedEventIds) l st) = Some k ->
  likeEventId st = Some k \/
  exists e, In e l /\ Event.id e = k /\ isLike e = true /\
            ~ In (Some (Event.id e)) deletedEventIds.
Proof.
  revert st. induction l as [| e l IH]; intros st; cbn [fold_left]; [now left |].
  intros H. destruct (IH _ H) as [Hst | (e' & Hin & Hid & Hlike & Hdel)].
  - rewrite processEvent_likeEventId in Hst.
    destruct (deleted e) eqn:Ed; cbn [negb andb] in Hst; [now left |].
    destruct (isLike e) eqn:El; [| now left].
    right. exists e. split; [now left |]. split; [congruence |].
    split; [assumption |]. now apply (set_mem_complete1 value_eq_dec).
  - right. exists e'. split; [now right |]. auto.
Qed.

Lemma fold_processEvent_flagsMatchIds l st :
  flagsMatchIds st -> flagsMatchIds (fold_left (processEvent deletedEventIds) l st).
Proof.
  revert st. induction l as [| e l IH]; intros st Hst; cbn [fold_left]; [assumption |].
  apply IH. now apply processEvent_flagsMatchIds.
Qed.

End InteractionLoop.

Lemma emptyInteractions_flagsMatchIds : flagsMatchIds emptyInteractions.
Proof. split; simpl; split; intros H; [discriminate | congruence ..]. Qed.

Lemma interactionsOfEvents_flagsMatchIds events deleteEvents :
  flagsMatchIds (interactionsOfEvents events deleteEvents).
Proof.
  apply fold_processEvent_flagsMatchIds, emptyInteractions_flagsMatchIds.
Qed.

(** [hasLiked] is set exactly when a like of the list is outside the
    deletion set. *)
Lemma interactionsOfEvents_hasLiked events deleteEvents :
  hasLiked (interactionsOfEvents events deleteEvents) = true <->
  exists e, In e events /\ isLike e = true /\
            ~ In (Some (Event.id e)) (collectDeletedEventIds deleteEvents).
Proof.
  unfold interactionsOfEvents. rewrite fold_processEvent_hasLiked.
  cbn [hasLiked emptyInteractions orb]. rewrite existsb_exists.
  split; intros (e & Hin & H); exists e; (split; [assumption |]).
  - apply andb_true_iff in H as [Hd Hl]. split; [assumption |].
    apply negb_true_iff in Hd. now apply (set_mem_complete1 value_eq_dec).
  - destruct H as [Hl Hd]. apply andb_true_iff. split; [| assumption].
    apply negb_true_iff. now apply set_mem_complete2.
Qed.

(** ** Selecting the newest contact list *)

Lemma hd_sort_insert {A : Type} (compareFn : A -> A -> Z) x s :
  hd_error (sort_insert compareFn x s) =
  match hd_error s with
  | None => Some x
  | Some y => if compareFn x y >? 0 then Some y else Some x
  end.
Proof.
  destruct s as [| y s]; cbn [sort_insert hd_error]; [reflexivity |].
  destruct (compareFn x y >? 0); reflexivity.
Qed.

Lemma sort_insert_in {A : Type} (compareFn : A -> A -> Z) x s y :
  In y (sort_insert compareFn x s) <-> y = x \/ In y s.
Proof.
  induction s as [| z s IH]; cbn [sort_insert].
  - simpl. intuition.
  - destruct (compareFn x z >? 0); simpl; [rewrite IH |]; intuition.
Qed.

Lemma sort_in {A : Type} (compareFn : A -> A -> Z) l y :
  In y (sort compareFn l) <-> In y l.
Proof.
  induction l as [| x l IH]; cbn [sort fold_right]; [tauto |].
  fold (sort compareFn l). rewrite sort_insert_in, IH. simpl. intuition.
Qed.

Lemma sort_nil_inv {A : Type} (compareFn : A -> A -> Z) l :
  sort compareFn l = [] -> l = [].
Proof.
  destruct l as [| x l]; [reflexivity |]. intros H.
  assert (Hin : In x (sort compareFn (x :: l))) by (apply sort_in; now left).
  rewrite H in Hin. destruct Hin.
Qed.

(** The event the sort puts first is the first of the response among those
    of greatest [created_at]. *)
Lemma sort_byCreatedAtDesc_head l c :
  hd_error (sort byCreatedAtDesc l) = Some c ->
  exists l1 l2,
    l = l1 ++ c :: l2 /\
    (forall e, In e l1 -> Event.created_at e < Event.created_at c) /\
    (forall e, In e l2 -> Event.created_at e <= Event.created_at c).
Proof.
  revert c. induction l as [| x l IH]; intros c; cbn [sort fold_right].
  - discriminate.
  - fold (sort byCreatedAtDesc l). rewrite hd_sort_insert.
    destruct (hd_error (sort byCreatedAtDesc l)) as [y |] eqn:Ehd.
    + destruct (IH y eq_refl) as (l1 & l2 & -> & H1 & H2).
      unfold byCreatedAtDesc.
      destruct (Z.gtb_spec (Event.created_at y - Event.created_at x) 0) as [Hgt | Hle];
        intros [= <-].
      * exists (x :: l1), l2. split; [reflexivity |]. split; [| assumption].
        intros e [<- | Hin]; [lia | auto].
      * exists [], (l1 ++ y :: l2). split; [reflexivity |]. split; [intros e [] |].
        intros e Hin. apply in_app_or in Hin as [Hin | [<- | Hin]].
        -- specialize (H1 e Hin). lia.
        -- lia.
        -- specialize (H2 e Hin). lia.
    + intros [= <-]. destruct (sort byCreatedAtDesc l) eqn:Es; [| discriminate].
      apply sort_nil_inv in Es. subst l.
      exists [], []. split; [reflexivity |]. split; intros e [].
Qed.

(** ** Extracting the followed identities *)

Lemma extractFollowing_followedIdentities c :
  extractFollowing c = map Some (followedIdentities (Event.tags c)).
Proof.
  unfold extractFollowing, followedIdentities.
  induction (Event.tags c) as [| tag tags IH]; [reflexivity |].
  cbn [filter flat_map]. rewrite map_app, <- IH.
  destruct tag as [| key [| value rest]]; cbn [nth_error strict_eq truthy].
  - reflexivity.
  - destruct (key =? "p")%string; reflexivity.
  - destruct (key =? "p")%string; cbn [andb filter nth_error truthy]; [| reflexivity].
    destruct (value =? "")%string; reflexivity.
Qed.

Lemma followedIdentities_in tags v :
  In v (followedIdentities tags) <->
  exists tag, In tag tags /\ nth_error tag 0 = Some "p" /\
              nth_error tag 1 = Some v /\ v <> "".
Proof.
  unfold followedIdentities. rewrite in_flat_map. split.
  - intros (tag & Hin & Hv). exists tag. split; [assumption |].
    destruct tag as [| key [| value rest]]; try destruct Hv.
    destruct (String.eqb_spec key "p"), (String.eqb_spec value "");
      cbn [andb negb] in Hv; try destruct Hv as [<- | []]; try destruct Hv.
    subst. auto.
  - intros (tag & Hin & H0 & H1 & Hne). exists tag. split; [assumption |].
    destruct tag as [| key [| value rest]]; try discriminate.
    cbn in H0, H1. injection H0 as ->. injection H1 as ->.
    destruct (String.eqb_spec v ""); [contradiction |]. now left.
Qed.

(** ** Collecting the followers *)

Local Abbreviation addFollower :=
  (fun (followerPubkeys : set string) (event : Event.t) =>
     set_add string_dec (Event.pubkey event) followerPubkeys).

Lemma fold_addFollower_in l s a :
  In a (fold_left addFollower l s) <-> In a s \/ In a (map Event.pubkey l).
Proof.
  revert s. induction l as [| e l IH]; intros s; cbn [fold_left map].
  - simpl. tauto.
  - rewrite IH, set_add_iff. simpl. intuition.
Qed.

Lemma fold_addFollower_NoDup l s :
  NoDup s -> NoDup (fold_left addFollower l s).
Proof.
  revert s. induction l as [| e l IH]; intros s Hs; cbn [fold_left]; [assumption |].
  apply IH. now apply set_add_nodup.
Qed.

Lemma collectFollowers_in l a :
  In a (collectFollowers l) <-> exists e, In e l /\ Event.pubkey e = a.
Proof.
  unfold collectFollowers. rewrite fold_addFollower_in, in_map_iff.
  split; [intros [[] | (e & H1 & H2)]; eauto | intros (e & H1 & H2); eauto].
Qed.

Lemma collectFollowers_NoDup l : NoDup (collectFollowers l).
Proof. apply fold_addFollower_NoDup. constructor. Qed.

(** * The claims of the specification *)

(** ** Failure and emptiness *)

(** C5. When the relay answers the aggregator's query with no event at all,
    [useVideoSocialMetrics] returns the snapshot whose four counts are 0. *)
Theorem useVideoSocialMetrics_empty_response
    (nostr : NostrQuery) videoId videoPubkey vineId context :
  nostr (socialMetricsFilters videoId videoPubkey vineId)
        (SignalAny [signal context; SignalTimeout 3000]) = inr [] ->
  useVideoSocialMetrics nostr videoId videoPubkey vineId context =
  inr {| likeCount := 0; repostCount := 0; viewCount := 0; commentCount := 0 |}.
Proof.
  intros Hq. rewrite useVideoSocialMetrics_eq, Hq. reflexivity.
Qed.

Lemma useVideoSocialMetrics_empty_response_witness :
  useVideoSocialMetrics (memoryRelay []) "video" (Some "bob") (Some "clip") queryContext =
  inr {| likeCount := 0; repostCount := 0; viewCount := 0; commentCount := 0 |}.
Proof.
  apply (useVideoSocialMetrics_empty_response
           (memoryRelay []) "video" (Some "bob") (Some "clip") queryContext).
  reflexivity.
Defined.

(** C4. A failure of a relay query (a rejected promise, a timeout, a thrown
    exception) never leaves a hook: [useVideoSocialMetrics] then returns the
    all-zero snapshot, [useVideoUserInteractions] the all-false/null record,
    whichever of its two queries failed, [useFollowing] and [useFollowers]
    the empty list; and whatever the relay does, each hook returns a value
    and does not throw. *)
Theorem relay_failure_yields_defaults :
  (forall (nostr : NostrQuery) videoId videoPubkey vineId context err,
      nostr (socialMetricsFilters videoId videoPubkey vineId)
            (SignalAny [signal context; SignalTimeout 3000]) = inl err ->
      useVideoSocialMetrics nostr videoId videoPubkey vineId context =
      inr {| likeCount := 0; repostCount := 0; viewCount := 0; commentCount := 0 |})
  /\
  (forall (nostr : NostrQuery) videoId viewer videoPubkey vineId context err,
      let sig := SignalAny [signal context; SignalTimeout 2000] in
      let filters := userInteractionFilters videoId viewer videoPubkey vineId in
      nostr filters sig = inl err \/
      (exists allEvents,
          nostr filters sig = inr allEvents /\
          nostr (deleteFilters viewer (dedupEvents allEvents)) sig = inl err) ->
      useVideoUserInteractions nostr videoId (Some viewer) videoPubkey vineId context =
      inr {| hasLiked := false; hasReposted := false;
             likeEventId := None; repostEventId := None |})
  /\
  (forall (nostr : NostrQuery) subject context err,
      nostr [followingFilter subject]
            (SignalAny [signal context; SignalTimeout 10000]) = inl err ->
      useFollowing nostr (Some subject) context = inr [])
  /\
  (forall (nostr : NostrQuery) subject context err,
      nostr [followersFilter subject]
            (SignalAny [signal context; SignalTimeout 15000]) = inl err ->
      useFollowers nostr (Some subject) context = inr [])
  /\
  (forall (nostr : NostrQuery) videoId userPubkey videoPubkey vineId pubkey context,
      (exists m, useVideoSocialMetrics nostr videoId videoPubkey vineId context = inr m) /\
      (exists r, useVideoUserInteractions nostr videoId userPubkey videoPubkey vineId
                   context = inr r) /\
      (exists l, useFollowing nostr pubkey context = inr l) /\
      (exists l, useFollowers nostr pubkey context = inr l)).
Proof.
  repeat apply conj.
  - intros nostr videoId videoPubkey vineId context err Hq.
    rewrite useVideoSocialMetrics_eq, Hq. reflexivity.
  - intros nostr videoId viewer videoPubkey vineId context err sig filters Hq.
    destruct (truthy (Some viewer)) eqn:Hv;
      [| now apply useVideoUserInteractions_no_viewer].
    rewrite (useVideoUserInteractions_eq _ _ _ _ _ _ Hv). cbv zeta.
    fold sig. fold filters.
    destruct Hq as [Hq | (allEvents & Hq & Hd)]; rewrite Hq; [reflexivity |].
    rewrite Hd. reflexivity.
  - intros nostr subject context err Hq.
    destruct (truthy (Some subject)) eqn:Hv;
      [| now apply useFollow_no_subject].
    rewrite (useFollowing_eq _ _ _ Hv), Hq. reflexivity.
  - intros nostr subject context err Hq.
    destruct (truthy (Some subject)) eqn:Hv;
      [| now apply useFollow_no_subject].
    rewrite (useFollowers_eq _ _ _ Hv), Hq. reflexivity.
  - intros nostr videoId userPubkey videoPubkey vineId pubkey context.
    repeat apply conj.
    + rewrite useVideoSocialMetrics_eq. destruct (nostr _ _); eauto.
    + destruct (truthy userPubkey) eqn:Hv.
      * destruct userPubkey as [viewer |]; [| discriminate].
        rewrite (useVideoUserInteractions_eq _ _ _ _ _ _ Hv). cbv zeta.
        destruct (nostr (userInteractionFilters _ _ _ _) _); [eauto |].
        destruct (nostr (deleteFilters _ _) _); eauto.
      * rewrite useVideoUserInteractions_no_viewer by assumption. eauto.
    + destruct (truthy pubkey) eqn:Hv.
      * destruct pubkey as [subject |]; [| discriminate].
        rewrite (useFollowing_eq _ _ _ Hv).
        destruct (nostr _ _) as [e | l]; [eauto |].
        destruct (sort byCreatedAtDesc l) as [| c rest]; [eauto |].
        destruct (validTimeValue _); eauto.
      * rewrite (proj1 (useFollow_no_subject nostr pubkey context Hv)). eauto.
    + destruct (truthy pubkey) eqn:Hv.
      * destruct pubkey as [subject |]; [| discriminate].
        rewrite (useFollowers_eq _ _ _ Hv). destruct (nostr _ _); eauto.
      * rewrite (proj2 (useFollow_no_subject nostr pubkey context Hv)). eauto.
Qed.

Lemma relay_failure_yields_defaults_witness :
  useVideoSocialMetrics (failingRelay TimeoutError) "video" None None queryContext =
    inr {| likeCount := 0; repostCount := 0; viewCount := 0; commentCount := 0 |}
  /\ useVideoUserInteractions (failingRelay (NetworkError "offline")) "video"
       (Some "alice") None None queryContext =
     inr {| hasLiked := false; hasReposted := false;
            likeEventId := None; repostEventId := None |}
  /\ useVideoUserInteractions (failingDeletesRelay unlikeStore AbortError) "video"
       (Some "alice") None None queryContext =
     inr {| hasLiked := false; hasReposted := false;
            likeEventId := None; repostEventId := None |}
  /\ useFollowing (failingRelay TimeoutError) (Some "carol") queryContext = inr []
  /\ useFollowers (failingRelay AbortError) (Some "carol") queryContext = inr [].
Proof.
  destruct relay_failure_yields_defaults as (Hm & Hi & Hg & Hf & _).
  split; [| split; [| split; [| split]]].
  - apply (Hm _ _ _ _ _ TimeoutError). reflexivity.
  - apply (Hi _ _ _ _ _ _ (NetworkError "offline")). left. reflexivity.
  - apply (Hi _ _ _ _ _ _ AbortError). right.
    eexists. split; reflexivity.
  - apply (Hg _ _ _ TimeoutError). reflexivity.
  - apply (Hf _ _ _ AbortError). reflexivity.
Defined.

(** ** The interaction record *)

(** C9. Whatever the relay does and whoever the viewer is (or none),
    [useVideoUserInteractions] returns a record in which [hasLiked] is true
    exactly when [likeEventId] is not null, and [hasReposted] is true exactly
    when [repostEventId] is not null. *)
Theorem useVideoUserInteractions_flags_match_ids
    (nostr : NostrQuery) videoId userPubkey videoPubkey vineId context :
  exists r,
    useVideoUserInteractions nostr videoId userPubkey videoPubkey vineId context = inr r /\
    (hasLiked r = true <-> likeEventId r <> None) /\
    (hasReposted r = true <-> repostEventId r <> None).
Proof.
  destruct (truthy userPubkey) eqn:Hv.
  - destruct userPubkey as [viewer |]; [| discriminate].
    rewrite (useVideoUserInteractions_eq _ _ _ _ _ _ Hv). cbv zeta.
    destruct (nostr (userInteractionFilters _ _ _ _) _) as [err | allEvents].
    + exists emptyInteractions. split; [reflexivity |].
      apply emptyInteractions_flagsMatchIds.
    + destruct (nostr (deleteFilters _ _) _) as [err | deleteEvents].
      * exists emptyInteractions. split; [reflexivity |].
        apply emptyInteractions_flagsMatchIds.
      * eexists. split; [reflexivity |].
        apply interactionsOfEvents_flagsMatchIds.
  - rewrite useVideoUserInteractions_no_viewer by assumption.
    exists emptyInteractions. split; [reflexivity |].
    apply emptyInteractions_flagsMatchIds.
Qed.

(** ** Relay configuration *)

Lemma includes_In l s : includes l s = true <-> In s l.
Proof.
  induction l as [| x l IH]; simpl; [split; [discriminate | tauto] |].
  rewrite orb_true_iff, String.eqb_eq, IH. tauto.
Qed.

(** C10. [supportsNIP50] returns a boolean for every input string and never
    throws; on a string the [URL] constructor rejects it returns false; and it
    returns true exactly when the string parses and the hostname of the
    parsed URL is in [NIP50_SUPPORTED_RELAYS]. *)
Theorem supportsNIP50_total_and_exact (newURL : string -> Js URL) (relayUrl : string) :
  (exists b, supportsNIP50 newURL relayUrl = inr b) /\
  (forall err, newURL relayUrl = inl err -> supportsNIP50 newURL relayUrl = inr false) /\
  (supportsNIP50 newURL relayUrl = inr true <->
   exists url, newURL relayUrl = inr url /\ In (hostname url) NIP50_SUPPORTED_RELAYS).
Proof.
  unfold supportsNIP50. js_run.
  destruct (newURL relayUrl) as [err | url].
  - split; [eauto |]. split; [reflexivity |].
    split; [discriminate | intros (url & Hurl & _); discriminate].
  - split; [eauto |]. split; [discriminate |]. split.
    + intros [= Hin]. exists url. split; [reflexivity |]. now apply includes_In.
    + intros (url' & [= <-] & Hin). f_equal. now apply includes_In.
Qed.

Lemma supportsNIP50_total_and_exact_witness :
  supportsNIP50 wssURL "wss://relay.nostr.band" = inr true /\
  supportsNIP50 wssURL "relay.nostr.band" = inr false.
Proof.
  split.
  - apply (proj2 (proj2 (supportsNIP50_total_and_exact wssURL "wss://relay.nostr.band"))).
    eexists. split; [reflexivity |]. simpl. tauto.
  - apply (proj1 (proj2 (supportsNIP50_total_and_exact wssURL "relay.nostr.band"))
             (TypeError "Invalid URL")).
    reflexivity.
Defined.

(** ** The follow graph *)

(** C7. When the relay answers the followers query with the events [l],
    [useFollowers] returns the authors of those events, each exactly once:
    the list has no repetition and holds an identity exactly when some event
    of [l] is authored by it; if the events have two different authors
    between them, however many events each issued, the list has length 2. *)
Theorem useFollowers_distinct_authors
    (nostr : NostrQuery) subject context (l : list Event.t) :
  subject <> "" ->
  nostr [followersFilter subject]
        (SignalAny [signal context; SignalTimeout 15000]) = inr l ->
  exists followers,
    useFollowers nostr (Some subject) context = inr followers /\
    NoDup followers /\
    (forall a, In a followers <-> exists e, In e l /\ Event.pubkey e = a) /\
    (forall a b, a <> b ->
       In a (map Event.pubkey l) -> In b (map Event.pubkey l) ->
       (forall e, In e l -> Event.pubkey e = a \/ Event.pubkey e = b) ->
       length followers = 2%nat).
Proof.
  intros Hs Hq. exists (collectFollowers l).
  rewrite (useFollowers_eq _ _ _ (proj2 (truthy_Some subject) Hs)), Hq.
  split; [reflexivity |]. split; [apply collectFollowers_NoDup |].
  split; [apply collectFollowers_in |].
  intros a b Hab Ha Hb Hall.
  assert (Hperm : Permutation (collectFollowers l) [a; b]).
  { apply NoDup_Permutation.
    - apply collectFollowers_NoDup.
    - constructor; [simpl; intuition | constructor; [intros [] | constructor]].
    - intros x. rewrite collectFollowers_in. simpl. split.
      + intros (e & Hin & <-). destruct (Hall e Hin); auto.
      + apply in_map_iff in Ha as (ea & Hea & Hina).
        apply in_map_iff in Hb as (eb & Heb & Hinb).
        intros [<- | [<- | []]]; eauto. }
  now rewrite (Permutation_length Hperm).
Qed.

Lemma useFollowers_distinct_authors_witness :
  useFollowers (memoryRelay followersStore) (Some "carol") queryContext =
    inr ["bob"; "alice"] /\
  exists followers,
    useFollowers (memoryRelay followersStore) (Some "carol") queryContext = inr followers /\
    NoDup followers /\
    (forall a, In a followers <->
               exists e, In e (relayAnswer followersStore [followersFilter "carol"]) /\
                         Event.pubkey e = a) /\
    length followers = 2%nat.
Proof.
  split; [reflexivity |].
  destruct (useFollowers_distinct_authors
              (memoryRelay followersStore) "carol" queryContext
              (relayAnswer followersStore [followersFilter "carol"]))
    as (followers & Hf & Hnd & Hin & Hlen).
  - discriminate.
  - reflexivity.
  - exists followers. split; [exact Hf |]. split; [exact Hnd |]. split; [exact Hin |].
    apply (Hlen "bob" "alice").
    + discriminate.
    + vm_compute. tauto.
    + vm_compute. tauto.
    + vm_compute. intros e [<- | [<- | [<- | []]]]; auto.
Defined.

(** C6. When the relay answers the following query with a non-empty list of
    contact lists, [useFollowing] selects one of greatest [created_at]. While
    that event's [created_at], in milliseconds, is a valid date, the hook
    returns exactly the values of its tags whose key is ['p'] and whose value
    is present and non-empty, in tag order, as the claim says. When it is
    not, the [RangeError] of the log line that prints the date is caught and
    the hook returns the empty list, whatever the ['p'] tags. *)
Theorem useFollowing_p_tags_unless_invalid_date
    (nostr : NostrQuery) subject context (l : list Event.t) :
  subject <> "" ->
  nostr [followingFilter subject]
        (SignalAny [signal context; SignalTimeout 10000]) = inr l ->
  l <> [] ->
  exists newest,
    In newest l /\
    (forall e, In e l -> Event.created_at e <= Event.created_at newest) /\
    (Z.abs (Event.created_at newest * 1000) <= 8640000000000000 ->
     useFollowing nostr (Some subject) context =
     inr (map Some (followedIdentities (Event.tags newest)))) /\
    (8640000000000000 < Z.abs (Event.created_at newest * 1000) ->
     useFollowing nostr (Some subject) context = inr []).
Proof.
  intros Hs Hq Hne.
  rewrite (useFollowing_eq _ _ _ (proj2 (truthy_Some subject) Hs)), Hq.
  destruct (sort byCreatedAtDesc l) as [| c rest] eqn:Es.
  - apply sort_nil_inv in Es. contradiction.
  - destruct (sort_byCreatedAtDesc_head l c) as (l1 & l2 & -> & H1 & H2).
    { now rewrite Es. }
    exists c. split; [apply in_elt |]. split.
    + intros e Hin. apply in_app_or in Hin as [Hin | [<- | Hin]].
      * specialize (H1 e Hin). lia.
      * lia.
      * auto.
    + unfold validTimeValue.
      destruct (Z.leb_spec (Z.abs (Event.created_at c * 1000)) 8640000000000000).
      * split; [intros _; now rewrite extractFollowing_followedIdentities | lia].
      * split; [lia | reflexivity].
Qed.

Lemma useFollowing_p_tags_unless_invalid_date_witness :
  (useFollowing (memoryRelay farFutureStore) (Some "carol") queryContext = inr [] /\
   forall e, In e farFutureStore ->
             followedIdentities (Event.tags e) = ["alice"; "bob"]) /\
  useFollowing (poolRelay followingStores) (Some "carol") queryContext =
  inr [Some "alice"; Some "bob"].
Proof.
  split; [split |].
  - destruct (useFollowing_p_tags_unless_invalid_date
                (memoryRelay farFutureStore) "carol" queryContext farFutureStore
                ltac:(discriminate) eq_refl ltac:(discriminate))
      as (newest & [<- | []] & _ & _ & Hout).
    apply Hout. vm_compute. reflexivity.
  - intros e [<- | []]. reflexivity.
  - destruct (useFollowing_p_tags_unless_invalid_date
                (poolRelay followingStores) "carol" queryContext _
                ltac:(discriminate) eq_refl ltac:(discriminate))
      as (newest & Hin & Hmax & Hok & _).
    vm_compute in Hin. destruct Hin as [<- | [<- | []]].
    + specialize (Hmax (contactList "new" "carol" 20
                          [["p"; "alice"]; ["p"; ""]; ["p"; "bob"]])
                       ltac:(vm_compute; tauto)).
      vm_compute in Hmax. now contradiction Hmax.
    + apply Hok. vm_compute. discriminate.
Defined.

(** ** Deduplication *)

(** C3. When the relay's answer to the aggregator's query holds the
    identifier of [e] several times ([e] being the last event that carries
    it), [e] is counted exactly once: the snapshot is one turn of the
    counting loop for [e] on top of the snapshot of the answer without any
    event of that identifier. The events counted are events of the answer
    with pairwise different identifiers, one for each identifier of the
    answer. *)
Theorem useVideoSocialMetrics_counts_identifier_once
    (nostr : NostrQuery) videoId videoPubkey vineId context
    (l1 : list Event.t) (e : Event.t) (l2 : list Event.t) :
  nostr (socialMetricsFilters videoId videoPubkey vineId)
        (SignalAny [signal context; SignalTimeout 3000]) = inr (l1 ++ e :: l2) ->
  (forall e', In e' l2 -> Event.id e' <> Event.id e) ->
  useVideoSocialMetrics nostr videoId videoPubkey vineId context =
    inr (countEvent (metricsOfEvents (withoutId (Event.id e) (l1 ++ e :: l2))) e) /\
  useVideoSocialMetrics nostr videoId videoPubkey vineId context =
    inr (fold_left countEvent (dedupEvents (l1 ++ e :: l2)) zeroMetrics) /\
  NoDup (map Event.id (dedupEvents (l1 ++ e :: l2))) /\
  (forall e', In e' (dedupEvents (l1 ++ e :: l2)) -> In e' (l1 ++ e :: l2)) /\
  (forall k, In k (map Event.id (dedupEvents (l1 ++ e :: l2))) <->
             In k (map Event.id (l1 ++ e :: l2))).
Proof.
  intros Hq Hl2. rewrite useVideoSocialMetrics_eq, Hq.
  split; [f_equal; now apply metricsOfEvents_once |].
  split; [reflexivity |].
  split; [apply dedupEvents_NoDup |].
  split; [apply dedupEvents_in | apply dedupEvents_id_in].
Qed.

Lemma useVideoSocialMetrics_counts_identifier_once_witness :
  useVideoSocialMetrics (memoryRelay videoStore) "video" None None queryContext =
  inr {| likeCount := 1; repostCount := 1; viewCount := 0; commentCount := 1 |}.
Proof.
  exact (proj1 (useVideoSocialMetrics_counts_identifier_once
                  (memoryRelay videoStore) "video" None None queryContext
                  [ repost "repost1" "alice" "video" 150;
                    reaction "dislike1" "bob" "video" 110 "-";
                    reaction "like1" "alice" "video" 100 "👍";
                    videoComment ]
                  videoComment []
                  eq_refl
                  (fun e' (H : In e' []) => match H with end))).
Defined.

(** ** Classification of reactions *)

(** C2. A reaction (kind 7) whose content is not one of ['+'], ['❤️'], ['👍']
    changes no counter of the aggregator and no field of the interaction
    record; one whose content is in the list adds exactly one to [likeCount]
    and, unless its identifier is in the deletion set, sets [hasLiked] and
    [likeEventId]. Hence [likeCount] is the number of events, among those
    kept by the deduplication, that are reactions with a content of the list,
    and [hasLiked] holds exactly when such an event exists outside the
    deletion set. *)
Theorem reaction_classification :
  (forall m e, Event.kind e = 7 ->
     (~ In (Event.content e) likeTokens -> countEvent m e = m) /\
     (In (Event.content e) likeTokens ->
      countEvent m e =
      {| likeCount := likeCount m + 1; repostCount := repostCount m;
         viewCount := viewCount m; commentCount := commentCount m |}))
  /\
  (forall (nostr : NostrQuery) videoId videoPubkey vineId context allEvents,
     nostr (socialMetricsFilters videoId videoPubkey vineId)
           (SignalAny [signal context; SignalTimeout 3000]) = inr allEvents ->
     exists m,
       useVideoSocialMetrics nostr videoId videoPubkey vineId context = inr m /\
       likeCount m = countOf isLike (dedupEvents allEvents))
  /\
  (forall deletedEventIds st e, Event.kind e = 7 ->
     (~ In (Event.content e) likeTokens -> processEvent deletedEventIds st e = st) /\
     (In (Event.content e) likeTokens ->
      ~ In (Some (Event.id e)) deletedEventIds ->
      processEvent deletedEventIds st e =
      {| hasLiked := true; hasReposted := hasReposted st;
         likeEventId := Some (Event.id e); repostEventId := repostEventId st |}))
  /\
  (forall (nostr : NostrQuery) videoId viewer videoPubkey vineId context
          allEvents deleteEvents,
     let sig := SignalAny [signal context; SignalTimeout 2000] in
     viewer <> "" ->
     nostr (userInteractionFilters videoId viewer videoPubkey vineId) sig = inr allEvents ->
     nostr (deleteFilters viewer (dedupEvents allEvents)) sig = inr deleteEvents ->
     exists r,
       useVideoUserInteractions nostr videoId (Some viewer) videoPubkey vineId context
       = inr r /\
       (hasLiked r = true <->
        exists e, In e (dedupEvents allEvents) /\
                  Event.kind e = 7 /\ In (Event.content e) likeTokens /\
                  ~ In (Some (Event.id e)) (collectDeletedEventIds deleteEvents))).
Proof.
  repeat apply conj.
  - intros m e Hk. rewrite countEvent_classify.
    unfold isLike, isRepost, isView, isComment. rewrite Hk. cbn [Z.eqb Pos.eqb andb orb].
    split; intros Hc.
    + destruct (includes likeTokens (Event.content e)) eqn:Ei;
        [apply includes_In in Ei; contradiction |].
      destruct m; cbn. f_equal; lia.
    + apply includes_In in Hc. rewrite Hc. f_equal; lia.
  - intros nostr videoId videoPubkey vineId context allEvents Hq.
    rewrite useVideoSocialMetrics_eq, Hq. eexists. split; [reflexivity |].
    now rewrite metricsOfEvents_counts.
  - intros D st e Hk. unfold processEvent. rewrite Hk, isPositiveReaction_tokens.
    cbn [Z.eqb Pos.eqb andb]. split.
    + intros Hc.
      destruct (includes likeTokens (Event.content e)) eqn:Ei;
        [apply includes_In in Ei; contradiction |].
      destruct (set_mem _ _ _); reflexivity.
    + intros Hc Hd. apply includes_In in Hc. rewrite Hc.
      now rewrite (set_mem_complete2 value_eq_dec _ _ Hd).
  - intros nostr videoId viewer videoPubkey vineId context allEvents deleteEvents
           sig Hv Hq Hd.
    rewrite (useVideoUserInteractions_eq _ _ _ _ _ _ (proj2 (truthy_Some viewer) Hv)).
    cbv zeta. fold sig. rewrite Hq, Hd. eexists. split; [reflexivity |].
    rewrite interactionsOfEvents_hasLiked.
    split; intros (e & Hin & H); exists e; (split; [assumption |]).
    + destruct H as [Hl Hdel]. unfold isLike in Hl.
      apply andb_true_iff in Hl as [Hk Hc].
      apply Z.eqb_eq in Hk. apply includes_In in Hc. auto.
    + destruct H as (Hk & Hc & Hdel). split; [| assumption].
      unfold isLike. apply andb_true_iff. split;
        [now apply Z.eqb_eq | now apply includes_In].
Qed.

Lemma reaction_classification_witness :
  countEvent zeroMetrics (reaction "dislike1" "bob" "video" 110 "-") = zeroMetrics /\
  likeCount (countEvent zeroMetrics (reaction "like1" "alice" "video" 100 "👍")) = 1 /\
  (exists m,
      useVideoSocialMetrics (memoryRelay videoStore) "video" None None queryContext
      = inr m /\ likeCount m = 1) /\
  processEvent [] emptyInteractions (reaction "dislike1" "bob" "video" 110 "-")
  = emptyInteractions /\
  hasLiked (processEvent [] emptyInteractions (reaction "like1" "alice" "video" 100 "👍"))
  = true.
Proof.
  destruct reaction_classification as (Hstep & Hhook & Hproc & _).
  split; [| split; [| split; [| split]]].
  - apply (proj1 (Hstep zeroMetrics (reaction "dislike1" "bob" "video" 110 "-") eq_refl)).
    vm_compute. intuition discriminate.
  - rewrite (proj2 (Hstep zeroMetrics (reaction "like1" "alice" "video" 100 "👍") eq_refl)).
    + reflexivity.
    + vm_compute. tauto.
  - destruct (Hhook (memoryRelay videoStore) "video" None None queryContext _ eq_refl)
      as (m & Hm & Hc).
    exists m. split; [exact Hm | rewrite Hc; reflexivity].
  - apply (proj1 (Hproc [] emptyInteractions
                    (reaction "dislike1" "bob" "video" 110 "-") eq_refl)).
    vm_compute. intuition discriminate.
  - rewrite (proj2 (Hproc [] emptyInteractions
                      (reaction "like1" "alice" "video" 100 "👍") eq_refl)).
    + reflexivity.
    + vm_compute. tauto.
    + intros [].
Defined.

(** ** Determinism *)

(** C8. The result of a hook is a function of its arguments and of the
    relay's answers to the queries it issues: two relays that answer those
    queries alike (the metrics query; the interaction query and the delete
    query built from its answer; the following query; the followers query)
    give the same result, whatever they answer elsewhere. *)
Theorem hooks_deterministic (nostr1 nostr2 : NostrQuery) :
  (forall videoId videoPubkey vineId context,
     nostr1 (socialMetricsFilters videoId videoPubkey vineId)
            (SignalAny [signal context; SignalTimeout 3000]) =
     nostr2 (socialMetricsFilters videoId videoPubkey vineId)
            (SignalAny [signal context; SignalTimeout 3000]) ->
     useVideoSocialMetrics nostr1 videoId videoPubkey vineId context =
     useVideoSocialMetrics nostr2 videoId videoPubkey vineId context)
  /\
  (forall videoId userPubkey videoPubkey vineId context,
     let sig := SignalAny [signal context; SignalTimeout 2000] in
     (forall viewer, userPubkey = Some viewer ->
        nostr1 (userInteractionFilters videoId viewer videoPubkey vineId) sig =
        nostr2 (userInteractionFilters videoId viewer videoPubkey vineId) sig /\
        forall allEvents,
          nostr1 (userInteractionFilters videoId viewer videoPubkey vineId) sig
          = inr allEvents ->
          nostr1 (deleteFilters viewer (dedupEvents allEvents)) sig =
          nostr2 (deleteFilters viewer (dedupEvents allEvents)) sig) ->
     useVideoUserInteractions nostr1 videoId userPubkey videoPubkey vineId context =
     useVideoUserInteractions nostr2 videoId userPubkey videoPubkey vineId context)
  /\
  (forall pubkey context,
     (forall subject, pubkey = Some subject ->
        nostr1 [followingFilter subject]
               (SignalAny [signal context; SignalTimeout 10000]) =
        nostr2 [followingFilter subject]
               (SignalAny [signal context; SignalTimeout 10000])) ->
     useFollowing nostr1 pubkey context = useFollowing nostr2 pubkey context)
  /\
  (forall pubkey context,
     (forall subject, pubkey = Some subject ->
        nostr1 [followersFilter subject]
               (SignalAny [signal context; SignalTimeout 15000]) =
        nostr2 [followersFilter subject]
               (SignalAny [signal context; SignalTimeout 15000])) ->
     useFollowers nostr1 pubkey context = useFollowers nostr2 pubkey context).
Proof.
  repeat apply conj.
  - intros videoId videoPubkey vineId context Hq.
    now rewrite !useVideoSocialMetrics_eq, Hq.
  - intros videoId userPubkey videoPubkey vineId context sig Hq.
    destruct (truthy userPubkey) eqn:Hv.
    + destruct userPubkey as [viewer |]; [| discriminate].
      destruct (Hq viewer eq_refl) as [H1 H2].
      rewrite !(useVideoUserInteractions_eq _ _ _ _ _ _ Hv). cbv zeta. fold sig.
      rewrite <- H1.
      destruct (nostr1 (userInteractionFilters _ _ _ _) sig) as [err | allEvents];
        [reflexivity |].
      now rewrite (H2 allEvents eq_refl).
    + now rewrite !useVideoUserInteractions_no_viewer.
  - intros pubkey context Hq.
    destruct (truthy pubkey) eqn:Hv.
    + destruct pubkey as [subject |]; [| discriminate].
      now rewrite !(useFollowing_eq _ _ _ Hv), (Hq subject eq_refl).
    + now rewrite !(proj1 (useFollow_no_subject _ pubkey context Hv)).
  - intros pubkey context Hq.
    destruct (truthy pubkey) eqn:Hv.
    + destruct pubkey as [subject |]; [| discriminate].
      now rewrite !(useFollowers_eq _ _ _ Hv), (Hq subject eq_refl).
    + now rewrite !(proj2 (useFollow_no_subject _ pubkey context Hv)).
Qed.

Lemma hooks_deterministic_witness :
  useVideoSocialMetrics (memoryRelay videoStore) "video" None None queryContext =
  useVideoSocialMetrics (memoryRelay laterVideoStore) "video" None None queryContext
  /\
  useVideoUserInteractions (memoryRelay videoStore) "video" (Some "alice") None None
    queryContext =
  useVideoUserInteractions (memoryRelay laterVideoStore) "video" (Some "alice") None None
    queryContext
  /\
  useFollowing (memoryRelay videoStore) (Some "carol") queryContext =
  useFollowing (memoryRelay laterVideoStore) (Some "carol") queryContext
  /\
  useFollowers (memoryRelay videoStore) (Some "carol") queryContext =
  useFollowers (memoryRelay laterVideoStore) (Some "carol") queryContext.
Proof.
  destruct (hooks_deterministic (memoryRelay videoStore) (memoryRelay laterVideoStore))
    as (Hm & Hi & Hg & Hf).
  split; [| split; [| split]].
  - apply Hm. reflexivity.
  - apply Hi. intros viewer [= <-]. split; [reflexivity |].
    intros allEvents [= <-]. reflexivity.
  - apply Hg. intros subject [= <-]. reflexivity.
  - apply Hf. intros subject [= <-]. reflexivity.
Defined.

(** ** Deletion netting *)

(** C1, as the specification states it, fails when the viewer liked again
    after retracting: the relay holds the like [like1], the later delete
    [del1] of the same author whose ['e'] tag names [like1], and a second
    like [like2]; the lookup reports [hasLiked = true]. *)
Lemma deletion_netting_relike_counterexample :
  let like1 := reaction "like1" "alice" "video" 100 "+" in
  let del1 := deletion "del1" "alice" "like1" 200 in
  let sig := SignalAny [signal queryContext; SignalTimeout 2000] in
  In like1 relikeStore /\ In del1 relikeStore /\
  isLike like1 = true /\ Event.pubkey like1 = "alice" /\
  In ["e"; "video"] (Event.tags like1) /\
  retracts "alice" del1 like1 /\
  (exists allEvents deleteEvents,
      memoryRelay relikeStore (userInteractionFilters "video" "alice" None None) sig
      = inr allEvents /\ In like1 allEvents /\
      memoryRelay relikeStore (deleteFilters "alice" (dedupEvents allEvents)) sig
      = inr deleteEvents /\ In del1 deleteEvents) /\
  useVideoUserInteractions (memoryRelay relikeStore) "video" (Some "alice") None None
    queryContext =
  inr {| hasLiked := true; hasReposted := false;
         likeEventId := Some "like2"; repostEventId := None |}.
Proof.
  cbv zeta.
  split; [now left |].
  split; [right; now left |].
  split; [reflexivity |].
  split; [reflexivity |].
  split; [now left |].
  split.
  { split; [reflexivity |]. split; [reflexivity |]. split; [reflexivity |].
    exists ["e"; "like1"]. split; [now left |]. split; reflexivity. }
  split; [| reflexivity].
  eexists. eexists. split; [reflexivity |]. split; [right; now left |].
  split; [reflexivity |]. now left.
Qed.

Lemma deleted_iff_named deleteEvents e :
  In (Some (Event.id e)) (collectDeletedEventIds deleteEvents) <->
  Event.id e <> "" /\ namedByDelete deleteEvents e.
Proof.
  rewrite collectDeletedEventIds_in. unfold namedByDelete. split.
  - intros (d & tag & Hd & Htag & H0 & H1 & Ht).
    split; [now apply truthy_Some | exists d, tag; auto].
  - intros (Hid & d & tag & Hd & Htag & H0 & H1).
    exists d, tag. split; [assumption |]. split; [assumption |].
    split; [assumption |]. split; [assumption | now apply truthy_Some].
Qed.

Lemma retracts_namedByDelete viewer deleteEvent e deleteEvents :
  In deleteEvent deleteEvents -> retracts viewer deleteEvent e ->
  namedByDelete deleteEvents e.
Proof.
  intros Hin (_ & _ & _ & tag & Htag & H0 & H1). exists deleteEvent, tag. auto.
Qed.

(** C1, amended. When the relay answers the viewer's interaction query with
    [allEvents] and the dependent delete query with [deleteEvents], a like
    with a non-empty identifier that an ['e'] tag of a returned delete event
    names is never the like the lookup reports; when every like of
    [allEvents] is so named, the lookup returns [hasLiked = false] and a null
    [likeEventId]; and a like kept by the deduplication that no returned
    delete event names (a new like after the retraction, say) still gives
    [hasLiked = true]. Altogether [hasLiked] is true exactly when some like
    kept by the deduplication has an empty identifier or is named by no
    returned delete event. The kind, author and time of the returned delete
    events are not read. *)
Theorem useVideoUserInteractions_deletion_netting
    (nostr : NostrQuery) videoId viewer videoPubkey vineId context
    (allEvents deleteEvents : list Event.t) :
  let sig := SignalAny [signal context; SignalTimeout 2000] in
  viewer <> "" ->
  nostr (userInteractionFilters videoId viewer videoPubkey vineId) sig = inr allEvents ->
  nostr (deleteFilters viewer (dedupEvents allEvents)) sig = inr deleteEvents ->
  exists r,
    useVideoUserInteractions nostr videoId (Some viewer) videoPubkey vineId context
    = inr r /\
    (forall E,
        In E allEvents -> Event.id E <> "" -> namedByDelete deleteEvents E ->
        likeEventId r <> Some (Event.id E)) /\
    ((forall E, In E allEvents -> isLike E = true ->
                Event.id E <> "" /\ namedByDelete deleteEvents E) ->
     hasLiked r = false /\ likeEventId r = None) /\
    (forall E,
        In E (dedupEvents allEvents) -> isLike E = true ->
        ~ namedByDelete deleteEvents E ->
        hasLiked r = true) /\
    (hasLiked r = true <->
     exists E, In E (dedupEvents allEvents) /\ isLike E = true /\
               (Event.id E = "" \/ ~ namedByDelete deleteEvents E)).
Proof.
  intros sig Hv Hq Hd.
  rewrite (useVideoUserInteractions_eq _ _ _ _ _ _ (proj2 (truthy_Some viewer) Hv)).
  cbv zeta. fold sig. rewrite Hq, Hd. eexists. split; [reflexivity |].
  assert (Hiff : hasLiked (interactionsOfEvents (dedupEvents allEvents) deleteEvents)
                 = true <->
                 exists E, In E (dedupEvents allEvents) /\ isLike E = true /\
                           (Event.id E = "" \/ ~ namedByDelete deleteEvents E)).
  { rewrite interactionsOfEvents_hasLiked.
    split; intros (E & Hin & Hlike & H); exists E;
      (split; [assumption |]); (split; [assumption |]).
    - rewrite deleted_iff_named in H.
      destruct (string_dec (Event.id E) "") as [Hid | Hid]; [now left |].
      right. intros Hn. apply H. now split.
    - rewrite deleted_iff_named. intros [Hid Hn]. destruct H; contradiction. }
  split; [| split; [| split]].
  - intros E HE Hid Hnamed Hlike.
    apply fold_processEvent_likeEventId in Hlike
      as [Hnone | (e & _ & Heq & _ & Hnot)]; [discriminate |].
    apply Hnot. rewrite deleted_iff_named. rewrite Heq. split; [assumption |].
    destruct Hnamed as (d & tag & H1 & H2 & H3 & H4).
    exists d, tag. rewrite Heq. auto.
  - intros Hall.
    assert (Hfalse : hasLiked (interactionsOfEvents (dedupEvents allEvents) deleteEvents)
                     = false).
    { apply not_true_is_false. intros Ht.
      apply Hiff in Ht as (e & Hin & Hlike & Hnot).
      destruct (Hall e (dedupEvents_in _ _ Hin) Hlike) as (Hid & Hnamed).
      destruct Hnot; contradiction. }
    split; [assumption |].
    destruct (interactionsOfEvents_flagsMatchIds (dedupEvents allEvents) deleteEvents)
      as [Hl _].
    destruct (likeEventId _) as [k |]; [| reflexivity].
    rewrite Hfalse in Hl. exfalso.
    assert (false = true) by (apply Hl; discriminate). discriminate.
  - intros E HE Hlike Hnot. apply Hiff. exists E. auto.
  - exact Hiff.
Qed.

Lemma useVideoUserInteractions_deletion_netting_witness :
  (exists r,
      useVideoUserInteractions (memoryRelay unlikeStore) "video" (Some "alice") None None
        queryContext = inr r /\
      likeEventId r <> Some "like1" /\
      hasLiked r = false /\ likeEventId r = None) /\
  (exists r,
      useVideoUserInteractions (memoryRelay relikeStore) "video" (Some "alice") None None
        queryContext = inr r /\
      hasLiked r = true).
Proof.
  assert (Hnamed : namedByDelete [deletion "del1" "alice" "like1" 200]
                     (reaction "like1" "alice" "video" 100 "❤️")).
  { exists (deletion "del1" "alice" "like1" 200), ["e"; "like1"].
    split; [now left |]. split; [now left |]. split; reflexivity. }
  split.
  - destruct (useVideoUserInteractions_deletion_netting
                (memoryRelay unlikeStore) "video" "alice" None None queryContext
                (relayAnswer unlikeStore (userInteractionFilters "video" "alice" None None))
                [deletion "del1" "alice" "like1" 200]
                ltac:(discriminate) eq_refl eq_refl)
      as (r & Hr & Hnot & Hall & _).
    exists r. split; [exact Hr |]. split.
    + apply (Hnot (reaction "like1" "alice" "video" 100 "❤️")).
      * vm_compute. tauto.
      * discriminate.
      * exact Hnamed.
    + apply Hall. intros E HE Hlike.
      vm_compute in HE. destruct HE as [<- | [<- | []]]; [discriminate |].
      split; [discriminate | exact Hnamed].
  - destruct (useVideoUserInteractions_deletion_netting
                (memoryRelay relikeStore) "video" "alice" None None queryContext
                (relayAnswer relikeStore (userInteractionFilters "video" "alice" None None))
                [deletion "del1" "alice" "like1" 200]
                ltac:(discriminate) eq_refl eq_refl)
      as (r & Hr & _ & _ & Hlike & _).
    exists r. split; [exact Hr |].
    apply (Hlike (reaction "like2" "alice" "video" 300 "+")).
    + vm_compute. tauto.
    + reflexivity.
    + intros (d & tag & [<- | []] & [<- | []] & _ & H1). discriminate.
Defined.

(** * Further properties of the code *)

(** ** The four counters *)

Lemma classifiers_exclusive e :
  (if isLike e then 1 else 0) + (if isRepost e then 1 else 0)
  + (if isView e then 1 else 0) + (if isComment e then 1 else 0) <= 1.
Proof.
  unfold isLike, isRepost, isView, isComment.
  repeat match goal with
         | |- context [Event.kind e =? ?n] =>
             destruct (Z.eqb_spec (Event.kind e) n)
         end;
    try lia;
    cbn [andb orb]; try destruct (includes likeTokens (Event.content e)); lia.
Qed.

Lemma countOf_nonneg p l : 0 <= countOf p l.
Proof. unfold countOf. lia. Qed.

Lemma countOf_cons p e l :
  countOf p (e :: l) = (if p e then 1 else 0) + countOf p l.
Proof.
  unfold countOf. cbn [filter]. destruct (p e); cbn [length]; lia.
Qed.

Lemma counters_bounded l :
  countOf isLike l + countOf isRepost l + countOf isView l + countOf isComment l
  <= Z.of_nat (length l).
Proof.
  induction l as [| e l IH]; [unfold countOf; simpl; lia |].
  rewrite !countOf_cons. pose proof (classifiers_exclusive e).
  cbn [length]. lia.
Qed.

Lemma Map_set_length {V : Type} (m : list (string * V)) k v :
  (length (Map_set m k v) <= S (length m))%nat.
Proof.
  induction m as [| [k0 v0] m IH]; cbn [Map_set length]; [lia |].
  destruct (k0 =? k)%string; cbn [length]; lia.
Qed.

Lemma dedup_fold_length l (m : list (string * Event.t)) :
  (length (fold_left (fun m event => Map_set m (Event.id event) event) l m)
   <= length m + length l)%nat.
Proof.
  revert m. induction l as [| e l IH]; intros m; cbn [fold_left length]; [lia |].
  specialize (IH (Map_set m (Event.id e) e)).
  pose proof (Map_set_length m (Event.id e) e). lia.
Qed.

Lemma dedupEvents_length l : (length (dedupEvents l) <= length l)%nat.
Proof.
  unfold dedupEvents, Map_values, uniqueEvents. rewrite length_map.
  apply (dedup_fold_length l []).
Qed.

(** X2. Every event is counted in at most one counter: the four counts are
    not negative and their sum is at most the number of different identifiers
    of the relay's answer, hence at most the number of events returned. *)
Theorem useVideoSocialMetrics_counts_bounded
    (nostr : NostrQuery) videoId videoPubkey vineId context (allEvents : list Event.t) :
  nostr (socialMetricsFilters videoId videoPubkey vineId)
        (SignalAny [signal context; SignalTimeout 3000]) = inr allEvents ->
  exists m,
    useVideoSocialMetrics nostr videoId videoPubkey vineId context = inr m /\
    0 <= likeCount m /\ 0 <= repostCount m /\ 0 <= viewCount m /\ 0 <= commentCount m /\
    likeCount m + repostCount m + viewCount m + commentCount m
    <= Z.of_nat (length (dedupEvents allEvents)) /\
    NoDup (map Event.id (dedupEvents allEvents)) /\
    (length (dedupEvents allEvents) <= length allEvents)%nat.
Proof.
  intros Hq. rewrite useVideoSocialMetrics_eq, Hq. eexists. split; [reflexivity |].
  rewrite metricsOfEvents_counts. cbn [likeCount repostCount viewCount commentCount].
  repeat (split; [apply countOf_nonneg |]).
  split; [apply counters_bounded |].
  split; [apply dedupEvents_NoDup | apply dedupEvents_length].
Qed.

Lemma useVideoSocialMetrics_counts_bounded_witness :
  exists m,
    useVideoSocialMetrics (memoryRelay videoStore) "video" None None queryContext = inr m /\
    likeCount m + repostCount m + viewCount m + commentCount m <= 4.
Proof.
  destruct (useVideoSocialMetrics_counts_bounded
              (memoryRelay videoStore) "video" None None queryContext _ eq_refl)
    as (m & Hm & _ & _ & _ & _ & Hsum & _).
  exists m. split; [exact Hm | exact Hsum].
Defined.

(** ** Order of the relay's answer *)

Lemma Permutation_filter_length {A : Type} (p : A -> bool) l l' :
  Permutation l l' -> length (filter p l) = length (filter p l').
Proof.
  induction 1 as [| x l l' _ IH | x y l | l l' l'' _ IH1 _ IH2]; cbn [filter].
  - reflexivity.
  - destruct (p x); cbn [length]; congruence.
  - destruct (p x), (p y); reflexivity.
  - congruence.
Qed.

Lemma dedupEvents_members l :
  (forall a b, In a l -> In b l -> Event.id a = Event.id b -> a = b) ->
  forall e, In e (dedupEvents l) <-> In e l.
Proof.
  intros Hid e. split; [apply dedupEvents_in |].
  intros Hin.
  assert (Hk : In (Event.id e) (map Event.id (dedupEvents l))).
  { apply dedupEvents_id_in. now apply in_map. }
  apply in_map_iff in Hk as (e' & Heq & Hin').
  rewrite <- (Hid e' e (dedupEvents_in _ _ Hin') Hin Heq). exact Hin'.
Qed.

Lemma dedupEvents_Permutation l l' :
  (forall a b, In a l -> In b l -> Event.id a = Event.id b -> a = b) ->
  Permutation l l' ->
  Permutation (dedupEvents l) (dedupEvents l').
Proof.
  intros Hid Hperm.
  assert (Hid' : forall a b, In a l' -> In b l' -> Event.id a = Event.id b -> a = b).
  { intros a b Ha Hb.
    apply Hid; apply (Permutation_in _ (Permutation_sym Hperm)); assumption. }
  apply NoDup_Permutation.
  - eapply NoDup_map_inv, dedupEvents_NoDup.
  - eapply NoDup_map_inv, dedupEvents_NoDup.
  - intros e. rewrite (dedupEvents_members l Hid), (dedupEvents_members l' Hid').
    split; apply Permutation_in; [assumption | now apply Permutation_sym].
Qed.

(** X3. When events of equal identifier are equal (identifiers are content
    addressed), the snapshot does not depend on the order in which the relay
    returns the events: two answers that are permutations of one another give
    the same four counts. *)
Theorem useVideoSocialMetrics_order_independent
    (nostr1 nostr2 : NostrQuery) videoId videoPubkey vineId context
    (answer1 answer2 : list Event.t) :
  nostr1 (socialMetricsFilters videoId videoPubkey vineId)
         (SignalAny [signal context; SignalTimeout 3000]) = inr answer1 ->
  nostr2 (socialMetricsFilters videoId videoPubkey vineId)
         (SignalAny [signal context; SignalTimeout 3000]) = inr answer2 ->
  (forall a b, In a answer1 -> In b answer1 -> Event.id a = Event.id b -> a = b) ->
  Permutation answer1 answer2 ->
  useVideoSocialMetrics nostr1 videoId videoPubkey vineId context =
  useVideoSocialMetrics nostr2 videoId videoPubkey vineId context.
Proof.
  intros Hq1 Hq2 Hid Hperm.
  rewrite !useVideoSocialMetrics_eq, Hq1, Hq2, !metricsOfEvents_counts.
  pose proof (dedupEvents_Permutation _ _ Hid Hperm) as Hd.
  unfold countOf.
  now rewrite !(Permutation_filter_length _ _ _ Hd).
Qed.

Lemma useVideoSocialMetrics_order_independent_witness :
  useVideoSocialMetrics
    (poolRelay [[videoComment]; [reaction "like1" "alice" "video" 100 "+"]])
    "video" None None queryContext =
  useVideoSocialMetrics
    (poolRelay [[reaction "like1" "alice" "video" 100 "+"]; [videoComment]])
    "video" None None queryContext.
Proof.
  apply (useVideoSocialMetrics_order_independent _ _ "video" None None queryContext
           [videoComment; videoComment; reaction "like1" "alice" "video" 100 "+"]
           [reaction "like1" "alice" "video" 100 "+"; videoComment; videoComment]).
  - reflexivity.
  - reflexivity.
  - intros a b [<- | [<- | [<- | []]]] [<- | [<- | [<- | []]]] H;
      try reflexivity; discriminate.
  - change (Permutation
              ([videoComment; videoComment] ++ [reaction "like1" "alice" "video" 100 "+"])
              ([reaction "like1" "alice" "video" 100 "+"] ++ [videoComment; videoComment])).
    apply Permutation_app_comm.
Defined.

(** ** Events of other kinds *)

Lemma filter_filter_implied {A : Type} (p q : A -> bool) l :
  (forall x, p x = true -> q x = true) ->
  filter p (filter q l) = filter p l.
Proof.
  intros Hpq. induction l as [| x l IH]; [reflexivity |].
  cbn [filter]. destruct (q x) eqn:Eq; cbn [filter].
  - now rewrite IH.
  - destruct (p x) eqn:Ep; [rewrite (Hpq x Ep) in Eq; discriminate | exact IH].
Qed.

Lemma classifier_implies_counted_kind (p : Event.t -> bool) :
  p = isLike \/ p = isRepost \/ p = isView \/ p = isComment ->
  forall e, p e = true -> existsb (Z.eqb (Event.kind e)) socialKinds = true.
Proof.
  intros Hp e. unfold socialKinds. cbn [existsb].
  destruct Hp as [-> | [-> | [-> | ->]]];
    unfold isLike, isRepost, isView, isComment;
    destruct (Z.eqb_spec (Event.kind e) 1), (Z.eqb_spec (Event.kind e) 6),
             (Z.eqb_spec (Event.kind e) 7), (Z.eqb_spec (Event.kind e) 1111),
             (Z.eqb_spec (Event.kind e) 9735);
    cbn [andb orb]; intros; try reflexivity; try discriminate.
Qed.

Lemma dedupEvents_filter_Permutation (q : Event.t -> bool) l :
  (forall a b, In a l -> In b l -> Event.id a = Event.id b -> a = b) ->
  Permutation (dedupEvents (filter q l)) (filter q (dedupEvents l)).
Proof.
  intros Hid.
  assert (Hid' : forall a b, In a (filter q l) -> In b (filter q l) ->
                             Event.id a = Event.id b -> a = b).
  { intros a b Ha Hb. apply filter_In in Ha as [Ha _]. apply filter_In in Hb as [Hb _].
    now apply Hid. }
  apply NoDup_Permutation.
  - eapply NoDup_map_inv, dedupEvents_NoDup.
  - apply NoDup_filter. eapply NoDup_map_inv, dedupEvents_NoDup.
  - intros e. rewrite (dedupEvents_members _ Hid'), !filter_In.
    now rewrite (dedupEvents_members _ Hid).
Qed.

(** X1. When the relay answers, [repostCount] is the number of kind-6 events
    kept by the deduplication, [commentCount] the number of those of kind 1
    or 1111 and [viewCount] the number of those of kind 9735. Events of any
    other kind that the deduplication keeps change nothing: the snapshot is
    the counting loop run on the kept events of the five counted kinds. When
    moreover events of equal identifier are equal, the snapshot is the one of
    the answer without its events of other kinds. *)
Theorem useVideoSocialMetrics_counts_by_kind
    (nostr : NostrQuery) videoId videoPubkey vineId context (allEvents : list Event.t) :
  nostr (socialMetricsFilters videoId videoPubkey vineId)
        (SignalAny [signal context; SignalTimeout 3000]) = inr allEvents ->
  let counted := fun e => existsb (Z.eqb (Event.kind e)) socialKinds in
  exists m,
    useVideoSocialMetrics nostr videoId videoPubkey vineId context = inr m /\
    repostCount m =
      Z.of_nat (length (filter (fun e => Event.kind e =? 6) (dedupEvents allEvents))) /\
    commentCount m =
      Z.of_nat (length (filter (fun e => (Event.kind e =? 1) || (Event.kind e =? 1111))
                               (dedupEvents allEvents))) /\
    viewCount m =
      Z.of_nat (length (filter (fun e => Event.kind e =? 9735) (dedupEvents allEvents))) /\
    m = fold_left countEvent (filter counted (dedupEvents allEvents)) zeroMetrics /\
    ((forall a b, In a allEvents -> In b allEvents ->
                  Event.id a = Event.id b -> a = b) ->
     m = metricsOfEvents (filter counted allEvents)).
Proof.
  intros Hq counted. rewrite useVideoSocialMetrics_eq, Hq. eexists.
  split; [reflexivity |].
  rewrite metricsOfEvents_counts. cbn [repostCount commentCount viewCount].
  split; [reflexivity |]. split; [reflexivity |]. split; [reflexivity |].
  assert (Hkept : forall p, p = isLike \/ p = isRepost \/ p = isView \/ p = isComment ->
            countOf p (filter counted (dedupEvents allEvents))
            = countOf p (dedupEvents allEvents)).
  { intros p Hp. unfold countOf.
    now rewrite (filter_filter_implied p counted _
                   (classifier_implies_counted_kind p Hp)). }
  split.
  - rewrite fold_countEvent.
    cbn [likeCount repostCount viewCount commentCount zeroMetrics].
    rewrite !Hkept by tauto. reflexivity.
  - intros Hid. rewrite metricsOfEvents_counts.
    pose proof (dedupEvents_filter_Permutation counted allEvents Hid) as Hperm.
    assert (Hcount : forall p,
              p = isLike \/ p = isRepost \/ p = isView \/ p = isComment ->
              countOf p (dedupEvents (filter counted allEvents))
              = countOf p (dedupEvents allEvents)).
    { intros p Hp. rewrite <- (Hkept p Hp). unfold countOf.
      now rewrite (Permutation_filter_length p _ _ Hperm). }
    rewrite !Hcount by tauto. reflexivity.
Qed.

Lemma useVideoSocialMetrics_counts_by_kind_witness :
  exists m,
    useVideoSocialMetrics
      (fixedRelay [videoComment; deletion "del9" "bob" "video" 120;
                   repost "repost1" "alice" "video" 150; videoComment])
      "video" None None queryContext = inr m /\
    repostCount m = 1 /\ commentCount m = 1 /\ viewCount m = 0 /\
    m = metricsOfEvents [videoComment; repost "repost1" "alice" "video" 150; videoComment].
Proof.
  destruct (useVideoSocialMetrics_counts_by_kind
              (fixedRelay [videoComment; deletion "del9" "bob" "video" 120;
                           repost "repost1" "alice" "video" 150; videoComment])
              "video" None None queryContext _ eq_refl)
    as (m & Hm & Hr & Hc & Hv & _ & Hrestricted).
  exists m. split; [exact Hm |].
  rewrite Hr, Hc, Hv. split; [reflexivity |]. split; [reflexivity |].
  split; [reflexivity |].
  apply Hrestricted.
  intros a b [<- | [<- | [<- | [<- | []]]]] [<- | [<- | [<- | [<- | []]]]] H;
    try reflexivity; discriminate.
Defined.

(** ** Reposts and the reported identifiers *)

Section RepostLoop.

Variable deletedEventIds : set (option string).

Local Abbreviation surviving e :=
  (negb (set_mem value_eq_dec (Some (Event.id e)) deletedEventIds)).

Lemma processEvent_hasReposted st e :
  hasReposted (processEvent deletedEventIds st e) =
  hasReposted st || (surviving e && isRepost e).
Proof.
  unfold processEvent, isRepost.
  destruct (set_mem _ _ _); cbn [negb andb]; [now rewrite orb_false_r |].
  destruct ((Event.kind e =? 7) && isPositiveReaction (Event.content e));
    destruct (Event.kind e =? 6); cbn [hasReposted];
    rewrite ?orb_true_r, ?orb_false_r; reflexivity.
Qed.

Lemma processEvent_repostEventId st e :
  repostEventId (processEvent deletedEventIds st e) =
  if surviving e && isRepost e then Some (Event.id e) else repostEventId st.
Proof.
  unfold processEvent, isRepost.
  destruct (set_mem _ _ _); cbn [negb andb]; [reflexivity |].
  destruct ((Event.kind e =? 7) && isPositiveReaction (Event.content e));
    destruct (Event.kind e =? 6); reflexivity.
Qed.

Lemma fold_processEvent_hasReposted l st :
  hasReposted (fold_left (processEvent deletedEventIds) l st) =
  hasReposted st || existsb (fun e => surviving e && isRepost e) l.
Proof.
  revert st. induction l as [| e l IH]; intros st; cbn [fold_left existsb].
  - now rewrite orb_false_r.
  - now rewrite IH, processEvent_hasReposted, orb_assoc.
Qed.

Lemma fold_processEvent_repostEventId l st k :
  repostEventId (fold_left (processEvent deletedEventIds) l st) = Some k ->
  repostEventId st = Some k \/
  exists e, In e l /\ Event.id e = k /\ isRepost e = true /\
            ~ In (Some (Event.id e)) deletedEventIds.
Proof.
  revert st. induction l as [| e l IH]; intros st; cbn [fold_left]; [now left |].
  intros H. destruct (IH _ H) as [Hst | (e' & Hin & Hid & Hrep & Hdel)].
  - rewrite processEvent_repostEventId in Hst.
    destruct (set_mem value_eq_dec (Some (Event.id e)) deletedEventIds) eqn:Ed;
      cbn [negb andb] in Hst; [now left |].
    destruct (isRepost e) eqn:Er; [| now left].
    right. exists e. split; [now left |]. split; [congruence |].
    split; [assumption |]. now apply (set_mem_complete1 value_eq_dec).
  - right. exists e'. split; [now right |]. auto.
Qed.

(** Events that are deleted, or are no like, leave [likeEventId] alone. *)
Lemma fold_processEvent_likeEventId_unchanged l st :
  (forall e, In e l -> surviving e && isLike e = false) ->
  likeEventId (fold_left (processEvent deletedEventIds) l st) = likeEventId st.
Proof.
  revert st. induction l as [| e l IH]; intros st Hl; cbn [fold_left]; [reflexivity |].
  rewrite IH by (intros e' He'; apply Hl; now right).
  rewrite processEvent_likeEventId, (Hl e) by now left. reflexivity.
Qed.

Lemma fold_processEvent_repostEventId_unchanged l st :
  (forall e, In e l -> surviving e && isRepost e = false) ->
  repostEventId (fold_left (processEvent deletedEventIds) l st) = repostEventId st.
Proof.
  revert st. induction l as [| e l IH]; intros st Hl; cbn [fold_left]; [reflexivity |].
  rewrite IH by (intros e' He'; apply Hl; now right).
  rewrite processEvent_repostEventId, (Hl e) by now left. reflexivity.
Qed.

End RepostLoop.

Lemma interactionsOfEvents_hasReposted events deleteEvents :
  hasReposted (interactionsOfEvents events deleteEvents) = true <->
  exists e, In e events /\ Event.kind e = 6 /\
            ~ In (Some (Event.id e)) (collectDeletedEventIds deleteEvents).
Proof.
  unfold interactionsOfEvents. rewrite fold_processEvent_hasReposted.
  cbn [hasReposted emptyInteractions orb]. rewrite existsb_exists.
  split; intros (e & Hin & H); exists e; (split; [assumption |]).
  - apply andb_true_iff in H as [Hd Hr]. split; [now apply Z.eqb_eq |].
    apply negb_true_iff in Hd. now apply (set_mem_complete1 value_eq_dec).
  - destruct H as [Hr Hd]. apply andb_true_iff. split; [| now apply Z.eqb_eq].
    apply negb_true_iff. now apply set_mem_complete2.
Qed.

Lemma isLike_iff e :
  isLike e = true <-> Event.kind e = 7 /\ In (Event.content e) likeTokens.
Proof.
  unfold isLike. now rewrite andb_true_iff, Z.eqb_eq, includes_In.
Qed.

(** X4. Reposts are netted like likes: when the relay answers both queries,
    [hasReposted] is true exactly when an event kept by the deduplication is
    of kind 6 and its identifier is not in the deletion set; in particular,
    when every returned repost with a non-empty identifier is named by an
    ['e'] tag of a returned delete event, [hasReposted] is false and
    [repostEventId] is null. *)
Theorem useVideoUserInteractions_repost_netting
    (nostr : NostrQuery) videoId viewer videoPubkey vineId context
    (allEvents deleteEvents : list Event.t) :
  let sig := SignalAny [signal context; SignalTimeout 2000] in
  viewer <> "" ->
  nostr (userInteractionFilters videoId viewer videoPubkey vineId) sig = inr allEvents ->
  nostr (deleteFilters viewer (dedupEvents allEvents)) sig = inr deleteEvents ->
  exists r,
    useVideoUserInteractions nostr videoId (Some viewer) videoPubkey vineId context
    = inr r /\
    (hasReposted r = true <->
     exists e, In e (dedupEvents allEvents) /\ Event.kind e = 6 /\
               ~ In (Some (Event.id e)) (collectDeletedEventIds deleteEvents)) /\
    ((forall e, In e allEvents -> Event.kind e = 6 ->
                Event.id e <> "" /\
                exists d tag, In d deleteEvents /\ In tag (Event.tags d) /\
                              nth_error tag 0 = Some "e" /\
                              nth_error tag 1 = Some (Event.id e)) ->
     hasReposted r = false /\ repostEventId r = None).
Proof.
  intros sig Hv Hq Hd.
  rewrite (useVideoUserInteractions_eq _ _ _ _ _ _ (proj2 (truthy_Some viewer) Hv)).
  cbv zeta. fold sig. rewrite Hq, Hd. eexists. split; [reflexivity |].
  split; [apply interactionsOfEvents_hasReposted |].
  intros Hall.
  assert (Hfalse : hasReposted (interactionsOfEvents (dedupEvents allEvents) deleteEvents)
                   = false).
  { apply not_true_is_false. intros Ht.
    apply interactionsOfEvents_hasReposted in Ht as (e & Hin & Hk & Hnot).
    destruct (Hall e (dedupEvents_in _ _ Hin) Hk) as (Hid & d & tag & Hd' & Htag & H0 & H1).
    apply Hnot, collectDeletedEventIds_in. exists d, tag.
    repeat (split; [assumption |]). now apply truthy_Some. }
  split; [assumption |].
  destruct (interactionsOfEvents_flagsMatchIds (dedupEvents allEvents) deleteEvents)
    as [_ Hr].
  destruct (repostEventId _) as [k |]; [| reflexivity].
  rewrite Hfalse in Hr. exfalso.
  assert (false = true) by (apply Hr; discriminate). discriminate.
Qed.

Lemma useVideoUserInteractions_repost_netting_witness :
  exists r,
    useVideoUserInteractions
      (memoryRelay (deletion "del2" "alice" "repost1" 250 :: unlikeStore))
      "video" (Some "alice") None None queryContext = inr r /\
    hasReposted r = false /\ repostEventId r = None.
Proof.
  destruct (useVideoUserInteractions_repost_netting
              (memoryRelay (deletion "del2" "alice" "repost1" 250 :: unlikeStore))
              "video" "alice" None None queryContext
              _ _ ltac:(discriminate) eq_refl eq_refl)
    as (r & Hr & _ & Hall).
  exists r. split; [exact Hr |]. apply Hall.
  intros e He Hk. vm_compute in He.
  destruct He as [<- | [<- | []]]; [| discriminate].
  split; [discriminate |].
  exists (deletion "del2" "alice" "repost1" 250), ["e"; "repost1"].
  split; [vm_compute; tauto |]. split; [now left |]. split; reflexivity.
Defined.

(** X5. The identifiers the lookup reports can be used to retract: a
    non-null [likeEventId] is the identifier of a returned event that is a
    positive reaction and is not in the deletion set, a non-null
    [repostEventId] that of a returned event of kind 6 that is not in the
    deletion set. *)
Theorem useVideoUserInteractions_ids_name_events
    (nostr : NostrQuery) videoId viewer videoPubkey vineId context
    (allEvents deleteEvents : list Event.t) :
  let sig := SignalAny [signal context; SignalTimeout 2000] in
  viewer <> "" ->
  nostr (userInteractionFilters videoId viewer videoPubkey vineId) sig = inr allEvents ->
  nostr (deleteFilters viewer (dedupEvents allEvents)) sig = inr deleteEvents ->
  exists r,
    useVideoUserInteractions nostr videoId (Some viewer) videoPubkey vineId context
    = inr r /\
    (forall k, likeEventId r = Some k ->
       exists e, In e allEvents /\ Event.id e = k /\
                 Event.kind e = 7 /\ In (Event.content e) likeTokens /\
                 ~ In (Some k) (collectDeletedEventIds deleteEvents)) /\
    (forall k, repostEventId r = Some k ->
       exists e, In e allEvents /\ Event.id e = k /\ Event.kind e = 6 /\
                 ~ In (Some k) (collectDeletedEventIds deleteEvents)).
Proof.
  intros sig Hv Hq Hd.
  rewrite (useVideoUserInteractions_eq _ _ _ _ _ _ (proj2 (truthy_Some viewer) Hv)).
  cbv zeta. fold sig. rewrite Hq, Hd. eexists. split; [reflexivity |]. split.
  - intros k Hk.
    apply fold_processEvent_likeEventId in Hk
      as [Hnone | (e & Hin & Hid & Hlike & Hnot)]; [discriminate |].
    apply isLike_iff in Hlike as [Hkind Hc].
    exists e. split; [now apply dedupEvents_in |]. rewrite <- Hid. auto.
  - intros k Hk.
    apply fold_processEvent_repostEventId in Hk
      as [Hnone | (e & Hin & Hid & Hrep & Hnot)]; [discriminate |].
    apply Z.eqb_eq in Hrep.
    exists e. split; [now apply dedupEvents_in |]. rewrite <- Hid. auto.
Qed.

Lemma useVideoUserInteractions_ids_name_events_witness :
  exists r,
    useVideoUserInteractions (memoryRelay relikeStore) "video" (Some "alice") None None
      queryContext = inr r /\
    likeEventId r = Some "like2" /\
    exists e, In e relikeStore /\ Event.id e = "like2" /\ Event.kind e = 7.
Proof.
  destruct (useVideoUserInteractions_ids_name_events
              (memoryRelay relikeStore) "video" "alice" None None queryContext
              _ _ ltac:(discriminate) eq_refl eq_refl)
    as (r & Hr & Hlike & _).
  exists r. split; [exact Hr |].
  assert (Hid : likeEventId r = Some "like2").
  { cbv in Hr. injection Hr as <-. reflexivity. }
  split; [exact Hid |].
  destruct (Hlike "like2" Hid) as (e & Hin & Heq & Hk & _).
  exists e. split; [| split; assumption].
  vm_compute in Hin. destruct Hin as [<- | [<- | []]]; vm_compute; tauto.
Defined.

(** X6. Among several likes the last one wins: if the deduplicated answer is
    [before ++ e :: after], [e] is a positive reaction outside the deletion
    set and no event of [after] is one, then [likeEventId] is the identifier
    of [e]; likewise the last repost outside the deletion set gives
    [repostEventId]. *)
Theorem useVideoUserInteractions_last_event_wins
    (nostr : NostrQuery) videoId viewer videoPubkey vineId context
    (allEvents deleteEvents before after : list Event.t) (e : Event.t) :
  let sig := SignalAny [signal context; SignalTimeout 2000] in
  let deleted := fun e' => In (Some (Event.id e')) (collectDeletedEventIds deleteEvents) in
  viewer <> "" ->
  nostr (userInteractionFilters videoId viewer videoPubkey vineId) sig = inr allEvents ->
  nostr (deleteFilters viewer (dedupEvents allEvents)) sig = inr deleteEvents ->
  dedupEvents allEvents = before ++ e :: after ->
  ~ deleted e ->
  exists r,
    useVideoUserInteractions nostr videoId (Some viewer) videoPubkey vineId context
    = inr r /\
    (isLike e = true ->
     (forall e', In e' after -> isLike e' = true -> deleted e') ->
     hasLiked r = true /\ likeEventId r = Some (Event.id e)) /\
    (Event.kind e = 6 ->
     (forall e', In e' after -> Event.kind e' = 6 -> deleted e') ->
     hasReposted r = true /\ repostEventId r = Some (Event.id e)).
Proof.
  intros sig deleted Hv Hq Hd Hsplit Hnot.
  rewrite (useVideoUserInteractions_eq _ _ _ _ _ _ (proj2 (truthy_Some viewer) Hv)).
  cbv zeta. fold sig. rewrite Hq, Hd. eexists. split; [reflexivity |].
  assert (Hmem : set_mem value_eq_dec (Some (Event.id e))
                         (collectDeletedEventIds deleteEvents) = false)
    by now apply set_mem_complete2.
  unfold interactionsOfEvents. rewrite Hsplit, fold_left_app. cbn [fold_left].
  split.
  - intros Hlike Hafter. split.
    + rewrite fold_processEvent_hasLiked, processEvent_hasLiked, Hmem, Hlike.
      cbn [negb andb]. now rewrite orb_true_r.
    + rewrite fold_processEvent_likeEventId_unchanged.
      * now rewrite processEvent_likeEventId, Hmem, Hlike.
      * intros e' He'. destruct (isLike e') eqn:El; [| apply andb_false_r].
        rewrite (set_mem_correct2 value_eq_dec _ _ (Hafter e' He' El)). reflexivity.
  - intros Hkind Hafter. apply Z.eqb_eq in Hkind. split.
    + rewrite fold_processEvent_hasReposted, processEvent_hasReposted, Hmem.
      unfold isRepost at 1. rewrite Hkind. cbn [negb andb]. now rewrite orb_true_r.
    + rewrite fold_processEvent_repostEventId_unchanged.
      * rewrite processEvent_repostEventId, Hmem. unfold isRepost. now rewrite Hkind.
      * intros e' He'. unfold isRepost.
        destruct (Z.eqb_spec (Event.kind e') 6) as [E6 | E6]; [| apply andb_false_r].
        rewrite (set_mem_correct2 value_eq_dec _ _ (Hafter e' He' E6)). reflexivity.
Qed.

Lemma useVideoUserInteractions_last_event_wins_witness :
  exists r,
    useVideoUserInteractions
      (poolRelay [[reaction "likeA" "alice" "video" 300 "+"];
                  [reaction "likeB" "alice" "video" 100 "👍"]])
      "video" (Some "alice") None None queryContext = inr r /\
    hasLiked r = true /\ likeEventId r = Some "likeB".
Proof.
  destruct (useVideoUserInteractions_last_event_wins
              (poolRelay [[reaction "likeA" "alice" "video" 300 "+"];
                          [reaction "likeB" "alice" "video" 100 "👍"]])
              "video" "alice" None None queryContext
              _ _ [reaction "likeA" "alice" "video" 300 "+"] []
              (reaction "likeB" "alice" "video" 100 "👍")
              ltac:(discriminate) eq_refl eq_refl eq_refl
              (fun H : In _ [] => match H with end))
    as (r & Hr & Hlike & _).
  exists r. split; [exact Hr |].
  apply Hlike; [reflexivity | intros e' []].
Defined.

(** ** The deletion set and the dependent query *)

(** X7. The deletion set holds exactly the non-empty second elements of the
    tags whose first element is ['e'], over all returned delete events: a tag
    under another key (['E'], ['a'], ['p']), a tag without a value or with an
    empty one adds nothing, and neither the kind, the author nor the time of
    the returned event is looked at. *)
Theorem collectDeletedEventIds_exact (deleteEvents : list Event.t) (v : option string) :
  In v (collectDeletedEventIds deleteEvents) <->
  exists d key value rest,
    In d deleteEvents /\ In (key :: value :: rest) (Event.tags d) /\
    key = "e" /\ value <> "" /\ v = Some value.
Proof.
  rewrite collectDeletedEventIds_in. split.
  - intros (d & tag & Hd & Htag & H0 & H1 & Ht).
    destruct tag as [| key [| value rest]]; cbn in H0, H1; subst v;
      try discriminate.
    injection H0 as ->.
    exists d, "e", value, rest.
    split; [assumption |]. split; [assumption |]. split; [reflexivity |].
    split; [now apply truthy_Some | reflexivity].
  - intros (d & key & value & rest & Hd & Htag & -> & Hne & ->).
    exists d, ("e" :: value :: rest).
    split; [assumption |]. split; [assumption |]. split; [reflexivity |].
    split; [reflexivity | now apply truthy_Some].
Qed.

Lemma collectDeletedEventIds_exact_witness :
  In (Some "like1")
     (collectDeletedEventIds
        [ {| Event.id := "x"; Event.pubkey := "mallory"; Event.created_at := 1;
             Event.kind := 1;
             Event.tags := [["E"; "like7"]; ["e"]; ["e"; ""]; ["e"; "like1"; "wss://r"]];
             Event.content := "" |} ]) /\
  ~ In (Some "like7")
       (collectDeletedEventIds
          [ {| Event.id := "x"; Event.pubkey := "mallory"; Event.created_at := 1;
               Event.kind := 1;
               Event.tags := [["E"; "like7"]; ["e"]; ["e"; ""]; ["e"; "like1"; "wss://r"]];
               Event.content := "" |} ]).
Proof.
  split.
  - apply (proj2 (collectDeletedEventIds_exact _ (Some "like1"))).
    eexists _, "e", "like1", ["wss://r"].
    split; [now left |]. split; [cbn; tauto |].
    split; [reflexivity |]. split; [discriminate | reflexivity].
  - intros H. apply (proj1 (collectDeletedEventIds_exact _ (Some "like7"))) in H.
    destruct H as (d & key & value & rest & [<- | []] & Htag & -> & _ & [= <-]).
    cbn in Htag. intuition discriminate.
Defined.

(** X8. The delete query depends on the first answer: its only filter asks
    for kind 5 events of the viewer, at most 20, whose ['e'] tags name the
    identifiers of the first answer, each identifier once. *)
Theorem deleteFilters_names_each_identifier_once
    (viewer : string) (allEvents : list Event.t) :
  exists ids,
    deleteFilters viewer (dedupEvents allEvents) =
    [ {| kinds := [5]; authors := Some [viewer];
         tagFilters := [("#e", ids)]; limit := Some 20 |} ] /\
    NoDup ids /\
    (forall k, In k ids <-> exists e, In e allEvents /\ Event.id e = k).
Proof.
  exists (map Event.id (dedupEvents allEvents)).
  split; [reflexivity |]. split; [apply dedupEvents_NoDup |].
  intros k. rewrite dedupEvents_id_in, in_map_iff.
  split; intros (e & H1 & H2); exists e; split; assumption.
Qed.

(** ** Arguments that are absent or empty *)

(** X9. With a viewer (or subject) that is undefined or the empty string the
    hooks do not depend on the relay: whatever it would answer, the lookup
    returns the all-false record and both follow-graph readers return the
    empty list. *)
Theorem hooks_without_subject
    (nostr : NostrQuery) videoId (userPubkey : option string) videoPubkey vineId context :
  userPubkey = None \/ userPubkey = Some "" ->
  useVideoUserInteractions nostr videoId userPubkey videoPubkey vineId context =
    inr {| hasLiked := false; hasReposted := false;
           likeEventId := None; repostEventId := None |} /\
  useFollowing nostr userPubkey context = inr [] /\
  useFollowers nostr userPubkey context = inr [].
Proof.
  intros [-> | ->]; repeat split.
Qed.

Lemma hooks_without_subject_witness :
  useVideoUserInteractions (memoryRelay relikeStore) "video" (Some "") None None
    queryContext =
    inr {| hasLiked := false; hasReposted := false;
           likeEventId := None; repostEventId := None |} /\
  useFollowing (memoryRelay followersStore) (Some "") queryContext = inr [] /\
  useFollowers (memoryRelay followersStore) (Some "") queryContext = inr [].
Proof.
  apply (hooks_without_subject (memoryRelay relikeStore) "video" (Some "") None None
           queryContext).
  now right.
Defined.

(** ** The filters *)

Lemma addressableRef_Some videoPubkey vineId ref :
  addressableRef videoPubkey vineId = Some ref <->
  exists pk d, videoPubkey = Some pk /\ vineId = Some d /\ pk <> "" /\ d <> "" /\
               ref = ("34236:" ++ pk ++ ":" ++ d)%string.
Proof.
  unfold addressableRef. split.
  - destruct videoPubkey as [pk |], vineId as [d |]; try discriminate.
    cbn [truthy].
    destruct (String.eqb_spec pk ""), (String.eqb_spec d "");
      cbn [negb andb]; try discriminate.
    intros [= <-]. exists pk, d. auto.
  - intros (pk & d & -> & -> & Hpk & Hd & ->). cbn [truthy].
    destruct (String.eqb_spec pk ""), (String.eqb_spec d ""); try contradiction.
    reflexivity.
Qed.

(** X10. The addressable reference is built exactly when both the video's
    author and its [d] value are given and non-empty. Then the aggregator
    asks four filters (['#e'], ['#E'], ['#a'], ['#A']) and the lookup two
    (['#e'], ['#a']); otherwise they ask two and one, none of them on an
    addressable reference. Every filter of the aggregator has the five kinds
    and limit 500; every filter of the lookup has kinds 6 and 7, the viewer as
    only author and limit 10. *)
Theorem filters_follow_addressable_reference
    (videoId viewer : string) (videoPubkey vineId : option string) :
  (forall f, In f (socialMetricsFilters videoId videoPubkey vineId) ->
     kinds f = [1; 6; 7; 1111; 9735] /\ authors f = None /\ limit f = Some 500) /\
  (forall f, In f (userInteractionFilters videoId viewer videoPubkey vineId) ->
     kinds f = [6; 7] /\ authors f = Some [viewer] /\ limit f = Some 10) /\
  ((exists pk d, videoPubkey = Some pk /\ vineId = Some d /\ pk <> "" /\ d <> "" /\
      let ref := ("34236:" ++ pk ++ ":" ++ d)%string in
      map tagFilters (socialMetricsFilters videoId videoPubkey vineId) =
        [[("#e", [videoId])]; [("#E", [videoId])]; [("#a", [ref])]; [("#A", [ref])]] /\
      map tagFilters (userInteractionFilters videoId viewer videoPubkey vineId) =
        [[("#e", [videoId])]; [("#a", [ref])]])
   \/
   ((videoPubkey = None \/ videoPubkey = Some "" \/ vineId = None \/ vineId = Some "") /\
    map tagFilters (socialMetricsFilters videoId videoPubkey vineId) =
      [[("#e", [videoId])]; [("#E", [videoId])]] /\
    map tagFilters (userInteractionFilters videoId viewer videoPubkey vineId) =
      [[("#e", [videoId])]])).
Proof.
  unfold socialMetricsFilters, userInteractionFilters.
  destruct (addressableRef videoPubkey vineId) as [ref |] eqn:Eref.
  - split; [| split].
    + intros f [<- | [<- | [<- | [<- | []]]]]; repeat split.
    + intros f [<- | [<- | []]]; repeat split.
    + left. apply addressableRef_Some in Eref as (pk & d & -> & -> & Hpk & Hd & ->).
      exists pk, d. repeat split; assumption.
  - split; [| split].
    + intros f [<- | [<- | []]]; repeat split.
    + intros f [<- | []]; repeat split.
    + right. split; [| split; reflexivity].
      destruct videoPubkey as [pk |]; [| now left].
      destruct vineId as [d |]; [| now right; right; left].
      destruct (String.eqb_spec pk "") as [-> | Hpk]; [now right; left |].
      destruct (String.eqb_spec d "") as [-> | Hd]; [now right; right; right |].
      exfalso.
      assert (H : addressableRef (Some pk) (Some d)
                  = Some ("34236:" ++ pk ++ ":" ++ d)%string).
      { apply addressableRef_Some. exists pk, d. auto. }
      congruence.
Qed.

(** ** The follow graph, further *)

Lemma first_newest_unique (l1 l2 l1' l2' : list Event.t) (c c' : Event.t) :
  l1 ++ c :: l2 = l1' ++ c' :: l2' ->
  (forall e, In e l1 -> Event.created_at e < Event.created_at c) ->
  (forall e, In e l2 -> Event.created_at e <= Event.created_at c) ->
  (forall e, In e l1' -> Event.created_at e < Event.created_at c') ->
  (forall e, In e l2' -> Event.created_at e <= Event.created_at c') ->
  c = c'.
Proof.
  revert l1'. induction l1 as [| x l1 IH]; intros l1' Hsplit H1 H2 H1' H2'.
  - destruct l1' as [| y l1']; cbn in Hsplit; injection Hsplit as Hhd Htl.
    + exact Hhd.
    + subst y. assert (Hin : In c' l2) by (rewrite Htl; apply in_elt).
      specialize (H2 c' Hin). specialize (H1' c (or_introl eq_refl)). lia.
  - destruct l1' as [| y l1']; cbn in Hsplit; injection Hsplit as Hhd Htl.
    + subst x. assert (Hin : In c l2') by (rewrite <- Htl; apply in_elt).
      specialize (H2' c Hin). specialize (H1 c' (or_introl eq_refl)). lia.
    + apply (IH l1' Htl).
      * intros e He. apply H1. now right.
      * assumption.
      * intros e He. apply H1'. now right.
      * assumption.
Qed.

(** X11. When several returned contact lists share the greatest
    [created_at], [useFollowing] reads the one the relay returned first: an
    event preceded in the answer only by strictly older ones and followed by
    none newer is the one whose tags are extracted, provided its [created_at],
    in milliseconds, is a valid date; if it is not, the hook returns the empty
    list. *)
Theorem useFollowing_reads_first_newest
    (nostr : NostrQuery) subject context (before after : list Event.t) (c : Event.t) :
  subject <> "" ->
  nostr [followingFilter subject]
        (SignalAny [signal context; SignalTimeout 10000]) = inr (before ++ c :: after) ->
  (forall e, In e before -> Event.created_at e < Event.created_at c) ->
  (forall e, In e after -> Event.created_at e <= Event.created_at c) ->
  (Z.abs (Event.created_at c * 1000) <= 8640000000000000 ->
   useFollowing nostr (Some subject) context = inr (extractFollowing c)) /\
  (8640000000000000 < Z.abs (Event.created_at c * 1000) ->
   useFollowing nostr (Some subject) context = inr []).
Proof.
  intros Hs Hq Hbefore Hafter.
  rewrite (useFollowing_eq _ _ _ (proj2 (truthy_Some subject) Hs)), Hq.
  destruct (sort byCreatedAtDesc (before ++ c :: after)) as [| c' rest] eqn:Es.
  - apply sort_nil_inv in Es. now destruct before.
  - destruct (sort_byCreatedAtDesc_head (before ++ c :: after) c')
      as (l1 & l2 & Hsplit & H1 & H2); [now rewrite Es |].
    rewrite <- (first_newest_unique _ _ _ _ _ _ Hsplit Hbefore Hafter H1 H2).
    unfold validTimeValue.
    destruct (Z.leb_spec (Z.abs (Event.created_at c * 1000)) 8640000000000000).
    + split; [reflexivity | lia].
    + split; [lia | reflexivity].
Qed.

Lemma useFollowing_reads_first_newest_witness :
  useFollowing
    (poolRelay [[contactList "a" "carol" 20 [["p"; "alice"]]];
                [contactList "b" "carol" 20 [["p"; "bob"]]];
                [contactList "c" "carol" 10 [["p"; "zed"]]]])
    (Some "carol") queryContext = inr [Some "alice"].
Proof.
  apply (proj1 (useFollowing_reads_first_newest
           (poolRelay [[contactList "a" "carol" 20 [["p"; "alice"]]];
                       [contactList "b" "carol" 20 [["p"; "bob"]]];
                       [contactList "c" "carol" 10 [["p"; "zed"]]]])
           "carol" queryContext []
           [contactList "b" "carol" 20 [["p"; "bob"]];
            contactList "c" "carol" 10 [["p"; "zed"]]]
           (contactList "a" "carol" 20 [["p"; "alice"]])
           ltac:(discriminate) eq_refl
           (fun e (H : In e []) => match H with end)
           ltac:(intros e [<- | [<- | []]]; vm_compute; discriminate))).
  vm_compute. discriminate.
Defined.

(** X12. Whatever the relay does and whatever the subject, every entry of
    the list [useFollowing] returns is a defined, non-empty string. *)
Theorem useFollowing_entries_defined (nostr : NostrQuery) pubkey context :
  exists following,
    useFollowing nostr pubkey context = inr following /\
    forall v, In v following -> exists s, v = Some s /\ s <> "".
Proof.
  destruct (truthy pubkey) eqn:Hv.
  - destruct pubkey as [subject |]; [| discriminate].
    rewrite (useFollowing_eq _ _ _ Hv).
    destruct (nostr _ _) as [err | l]; [exists []; split; [reflexivity | intros v []] |].
    destruct (sort byCreatedAtDesc l) as [| c rest];
      [exists []; split; [reflexivity | intros v []] |].
    destruct (validTimeValue _);
      [| exists []; split; [reflexivity | intros v []]].
    eexists. split; [reflexivity |].
    rewrite extractFollowing_followedIdentities. intros v Hin.
    apply in_map_iff in Hin as (s & <- & Hs).
    apply followedIdentities_in in Hs as (tag & _ & _ & _ & Hne). eauto.
  - rewrite (proj1 (useFollow_no_subject nostr pubkey context Hv)).
    exists []. split; [reflexivity | intros v []].
Qed.

Lemma count_occ_extractFollowing c (v : string) :
  v <> "" ->
  count_occ value_eq_dec (extractFollowing c) (Some v) =
  length (filter (fun tag => strict_eq (nth_error tag 0) "p" &&
                             strict_eq (nth_error tag 1) v)
                 (Event.tags c)).
Proof.
  intros Hv. unfold extractFollowing. cbv zeta.
  induction (Event.tags c) as [| tag tags IH]; [reflexivity |].
  cbn [filter].
  destruct (strict_eq (nth_error tag 0) "p"); cbn [andb filter]; [| exact IH].
  destruct (nth_error tag 1) as [s |] eqn:E1; cbn [truthy strict_eq]; [| exact IH].
  destruct (String.eqb_spec s "") as [-> | Hs]; cbn [negb].
  - destruct (String.eqb_spec "" v); [congruence | exact IH].
  - cbn [map count_occ]. rewrite E1.
    destruct (value_eq_dec (Some s) (Some v)) as [Heq | Hne];
      destruct (String.eqb_spec s v); try congruence; cbn [length]; now rewrite IH.
Qed.

(** X13. The following list is not deduplicated: when the [created_at] of
    the contact list read is, in milliseconds, a valid date, an identity
    occurs in the result as many times as that list has ['p'] tags with that
    value. *)
Theorem useFollowing_keeps_repetitions
    (nostr : NostrQuery) subject context (l : list Event.t) (newest : Event.t)
    (v : string) :
  subject <> "" -> v <> "" ->
  nostr [followingFilter subject]
        (SignalAny [signal context; SignalTimeout 10000]) = inr l ->
  hd_error (sort byCreatedAtDesc l) = Some newest ->
  Z.abs (Event.created_at newest * 1000) <= 8640000000000000 ->
  exists following,
    useFollowing nostr (Some subject) context = inr following /\
    count_occ value_eq_dec following (Some v) =
    length (filter (fun tag => strict_eq (nth_error tag 0) "p" &&
                               strict_eq (nth_error tag 1) v)
                   (Event.tags newest)).
Proof.
  intros Hs Hv Hq Hhd Hdate.
  rewrite (useFollowing_eq _ _ _ (proj2 (truthy_Some subject) Hs)), Hq.
  destruct (sort byCreatedAtDesc l) as [| c rest]; [discriminate |].
  injection Hhd as ->. unfold validTimeValue.
  rewrite (proj2 (Z.leb_le _ _) Hdate).
  eexists. split; [reflexivity |].
  now apply count_occ_extractFollowing.
Qed.

Lemma useFollowing_keeps_repetitions_witness :
  exists following,
    useFollowing
      (memoryRelay [contactList "l" "carol" 5 [["p"; "bob"]; ["p"; "alice"]; ["p"; "bob"]]])
      (Some "carol") queryContext = inr following /\
    count_occ value_eq_dec following (Some "bob") = 2%nat.
Proof.
  destruct (useFollowing_keeps_repetitions
              (memoryRelay
                 [contactList "l" "carol" 5 [["p"; "bob"]; ["p"; "alice"]; ["p"; "bob"]]])
              "carol" queryContext _
              (contactList "l" "carol" 5 [["p"; "bob"]; ["p"; "alice"]; ["p"; "bob"]])
              "bob"
              ltac:(discriminate) ltac:(discriminate) eq_refl eq_refl
              ltac:(vm_compute; discriminate))
    as (following & Hf & Hcount).
  exists following. split; [exact Hf |].
  rewrite Hcount. reflexivity.
Defined.

Lemma filters_follow_addressable_reference_witness :
  map tagFilters (socialMetricsFilters "video" (Some "bob") (Some "clip")) =
    [[("#e", ["video"])]; [("#E", ["video"])];
     [("#a", ["34236:bob:clip"])]; [("#A", ["34236:bob:clip"])]] /\
  map tagFilters (userInteractionFilters "video" "alice" (Some "bob") (Some "")) =
    [[("#e", ["video"])]].
Proof.
  split.
  - destruct (proj2 (proj2 (filters_follow_addressable_reference
                              "video" "alice" (Some "bob") (Some "clip"))))
      as [(pk & d & [= <-] & [= <-] & _ & _ & H & _) | ([H | [H | [H | H]]] & _)];
      [exact H | discriminate ..].
  - destruct (proj2 (proj2 (filters_follow_addressable_reference
                              "video" "alice" (Some "bob") (Some ""))))
      as [(pk & d & _ & [= <-] & _ & Hd & _) | (_ & _ & H)];
      [now contradiction Hd | exact H].
Defined.

Lemma useFollowing_entries_defined_witness :
  exists following,
    useFollowing (poolRelay followingStores) (Some "carol") queryContext = inr following /\
    forall v, In v following -> exists s, v = Some s /\ s <> "".
Proof.
  exact (useFollowing_entries_defined (poolRelay followingStores) (Some "carol")
           queryContext).
Defined.

(** ** Order of the followers *)

Lemma set_add_present (a : string) s : In a s -> set_add string_dec a s = s.
Proof.
  induction s as [| x s IH]; cbn [set_add]; [intros [] |].
  intros Hin. destruct (string_dec a x); [reflexivity |].
  f_equal. apply IH. destruct Hin; [congruence | assumption].
Qed.

Lemma set_add_absent (a : string) s : ~ In a s -> set_add string_dec a s = s ++ [a].
Proof.
  induction s as [| x s IH]; cbn [set_add]; [reflexivity |].
  intros Hnot. destruct (string_dec a x) as [-> | Hne].
  - exfalso. apply Hnot. now left.
  - cbn [app]. f_equal. apply IH. intros Hin. apply Hnot. now right.
Qed.

Lemma collectFollowers_first_occurrences l :
  collectFollowers l = rev (nodup string_dec (rev (map Event.pubkey l))).
Proof.
  induction l as [| e l IH] using rev_ind; [reflexivity |].
  unfold collectFollowers in *. rewrite fold_left_app. cbn [fold_left].
  rewrite map_app, rev_app_distr. cbn [map rev app nodup].
  destruct (in_dec string_dec (Event.pubkey e) (rev (map Event.pubkey l))) as [Hin | Hnot].
  - rewrite <- IH. apply set_add_present.
    apply fold_addFollower_in. right. now apply in_rev.
  - cbn [rev]. rewrite <- IH. apply set_add_absent.
    rewrite fold_addFollower_in. intros [[] | Hin]. apply Hnot. now apply in_rev in Hin.
Qed.

(** X14. The followers come in the order in which their first event stands
    in the relay's answer: the list is the authors of the returned events
    with every occurrence after the first removed; it is never longer than
    the answer. *)
Theorem useFollowers_first_appearance_order
    (nostr : NostrQuery) subject context (l : list Event.t) :
  subject <> "" ->
  nostr [followersFilter subject]
        (SignalAny [signal context; SignalTimeout 15000]) = inr l ->
  useFollowers nostr (Some subject) context =
    inr (rev (nodup string_dec (rev (map Event.pubkey l)))) /\
  (length (rev (nodup string_dec (rev (map Event.pubkey l)))) <= length l)%nat.
Proof.
  intros Hs Hq.
  rewrite (useFollowers_eq _ _ _ (proj2 (truthy_Some subject) Hs)), Hq.
  split; [now rewrite collectFollowers_first_occurrences |].
  rewrite length_rev.
  assert (Hle : forall s : list string, (length (nodup string_dec s) <= length s)%nat).
  { induction s as [| x s IHs]; cbn [nodup length]; [lia |].
    destruct (in_dec string_dec x s); cbn [length]; lia. }
  specialize (Hle (rev (map Event.pubkey l))).
  now rewrite length_rev, length_map in Hle.
Qed.

Lemma useFollowers_first_appearance_order_witness :
  useFollowers
    (poolRelay [[contactList "l1" "bob" 10 [["p"; "carol"]]];
                [contactList "l2" "alice" 20 [["p"; "carol"]]];
                [contactList "l3" "bob" 30 [["p"; "carol"]]]])
    (Some "carol") queryContext = inr ["bob"; "alice"].
Proof.
  exact (proj1 (useFollowers_first_appearance_order
                  (poolRelay [[contactList "l1" "bob" 10 [["p"; "carol"]]];
                              [contactList "l2" "alice" 20 [["p"; "carol"]]];
                              [contactList "l3" "bob" 30 [["p"; "carol"]]]])
                  "carol" queryContext _ ltac:(discriminate) eq_refl)).
Defined.

(** ** Relay endpoints and full-text search *)

(** X15. Under a [URL] constructor that reads the host of each configured
    relay URL [wss://host], the primary relay supports NIP-50 search, and
    among the relay options exactly Divine Video, Nostr Band and Primal do;
    every default relay is one of the options, the primary relay first in
    both lists. *)
Theorem relay_options_search_support (newURL : string -> Js URL) :
  (forall r, In r RELAY_OPTIONS ->
     exists u, newURL (RelayConfig.url r) = inr u /\
               RelayConfig.url r = ("wss://" ++ hostname u)%string) ->
  supportsNIP50 newURL DIVINE_RELAY_URL = inr true /\
  (forall r, In r RELAY_OPTIONS ->
     (supportsNIP50 newURL (RelayConfig.url r) = inr true <->
      In (RelayConfig.name r) ["Divine Video"; "Nostr Band"; "Primal"]) /\
     (supportsNIP50 newURL (RelayConfig.url r) = inr false <->
      In (RelayConfig.name r) ["Damus"; "nos.lol"])) /\
  (forall u, In u DEFAULT_RELAYS -> In u (map RelayConfig.url RELAY_OPTIONS)) /\
  hd_error DEFAULT_RELAYS = Some (RelayConfig.url DIVINE_RELAY) /\
  hd_error RELAY_OPTIONS = Some DIVINE_RELAY.
Proof.
  intros Hparse.
  assert (Hhost : forall r, In r RELAY_OPTIONS ->
            exists host,
              RelayConfig.url r = ("wss://" ++ host)%string /\
              supportsNIP50 newURL (RelayConfig.url r) =
              inr (includes NIP50_SUPPORTED_RELAYS host)).
  { intros r Hr. destruct (Hparse r Hr) as (u & Hu & Hurl).
    exists (hostname u). split; [assumption |].
    unfold supportsNIP50. js_run. now rewrite Hu. }
  assert (Hcases : forall r, In r RELAY_OPTIONS ->
            (supportsNIP50 newURL (RelayConfig.url r) = inr true <->
             In (RelayConfig.name r) ["Divine Video"; "Nostr Band"; "Primal"]) /\
            (supportsNIP50 newURL (RelayConfig.url r) = inr false <->
             In (RelayConfig.name r) ["Damus"; "nos.lol"])).
  { intros r Hr. destruct (Hhost r Hr) as (host & Hurl & ->).
    destruct Hr as [<- | [<- | [<- | [<- | [<- | []]]]]];
      cbv in Hurl;
      repeat match type of Hurl with
             | String _ _ = String _ _ => injection Hurl as Hurl
             end;
      subst host; vm_compute;
      (split; split; intros H; try discriminate; try reflexivity;
       intuition discriminate). }
  split.
  - apply (proj2 (proj1 (Hcases DIVINE_RELAY (or_introl eq_refl)))). now left.
  - split; [exact Hcases |].
    split; [| split; reflexivity].
    intros u [<- | [<- | [<- | [<- | []]]]]; vm_compute; tauto.
Qed.

Lemma relay_options_search_support_witness :
  supportsNIP50 wssURL DIVINE_RELAY_URL = inr true /\
  supportsNIP50 wssURL "wss://relay.damus.io" = inr false.
Proof.
  assert (Hparse : forall r, In r RELAY_OPTIONS ->
            exists u, wssURL (RelayConfig.url r) = inr u /\
                      RelayConfig.url r = ("wss://" ++ hostname u)%string).
  { intros r [<- | [<- | [<- | [<- | [<- | []]]]]];
      (eexists; split; [reflexivity | reflexivity]). }
  destruct (relay_options_search_support wssURL Hparse) as (Hdivine & Hopts & _).
  split; [exact Hdivine |].
  apply (proj2 (Hopts {| RelayConfig.url := "wss://relay.damus.io";
                         RelayConfig.name := "Damus" |}
                      ltac:(right; now left))).
  now left.
Defined.

(** ** Page layout *)

(** X16. [PageLayout] always renders the container [div], whose class does
    not depend on the width props. With [noContentWrapper] the children sit
    directly in it and [maxWidth] and [contentMaxWidth] have no effect;
    otherwise they sit in one inner [div] whose width class is ['max-w-']
    followed by [contentMaxWidth] if given, else by [maxWidth] if given, else
    by ['2xl']. *)
Theorem PageLayout_width_precedence {C : Type} (cn : list (option string) -> string)
    (children : C) maxWidth className contentMaxWidth noContentWrapper :
  let container := cn [Some "container mx-auto px-4 py-6"; className] in
  let width :=
    match contentMaxWidth, maxWidth with
    | Some w, _ => w
    | None, Some w => w
    | None, None => W2xl
    end in
  (noContentWrapper = Some true ->
   PageLayout cn children maxWidth className contentMaxWidth noContentWrapper =
   Div container (Children children)) /\
  (noContentWrapper <> Some true ->
   PageLayout cn children maxWidth className contentMaxWidth noContentWrapper =
   Div container
       (Div (cn [Some ("max-w-" ++ MaxWidth_string width)%string; Some "mx-auto"])
            (Children children))).
Proof.
  cbv zeta. unfold PageLayout. split.
  - intros ->. reflexivity.
  - intros Hno.
    assert (Hb : match noContentWrapper with Some b => b | None => false end = false).
    { destruct noContentWrapper as [[|] |]; [now contradiction Hno | reflexivity ..]. }
    rewrite Hb.
    destruct contentMaxWidth as [[] |], maxWidth as [[] |]; reflexivity.
Qed.

Lemma PageLayout_width_precedence_witness :
  PageLayout joinClasses tt (Some W6xl) None (Some W4xl) (Some true) =
    Div "container mx-auto px-4 py-6" (Children tt) /\
  PageLayout joinClasses tt (Some W6xl) None None None =
    Div "container mx-auto px-4 py-6" (Div "max-w-6xl mx-auto" (Children tt)).
Proof.
  split.
  - apply (proj1 (PageLayout_width_precedence joinClasses tt (Some W6xl) None
                    (Some W4xl) (Some true))).
    reflexivity.
  - apply (proj2 (PageLayout_width_precedence joinClasses tt (Some W6xl) None None None)).
    discriminate.
Defined.

(** ** Follow list dialog *)

Lemma useFollowers_NoDup (nostr : NostrQuery) pubkey context l :
  useFollowers nostr pubkey context = inr l -> NoDup l.
Proof.
  destruct (truthy pubkey) eqn:Hv.
  - destruct pubkey as [subject |]; [| discriminate].
    rewrite (useFollowers_eq _ _ _ Hv).
    destruct (nostr _ _) as [err | answer]; intros [= <-];
      [constructor | apply collectFollowers_NoDup].
  - rewrite (proj2 (useFollow_no_subject nostr pubkey context Hv)).
    intros [= <-]. constructor.
Qed.

(** X17. In the dialog, while the selected query is loading the body is five
    placeholders. Once it is not, either the selected list is non-empty and
    the body is one item for each of its entries, in order, keyed by the
    entry, while the title shows their number; or the list is absent or
    empty, the body is the empty-state text of the dialog's type and the
    title shows 0. *)
Theorem FollowListDialog_title_matches_body
    (useFollowersHook useFollowingHook : option string -> Dialog.QueryResult)
    (currentUser : option string) (subject : string) (type : Dialog.ListType) :
  let result :=
    match type with
    | Dialog.followers => useFollowersHook (Some subject)
    | Dialog.following => useFollowingHook (Some subject)
    end in
  let label :=
    match type with
    | Dialog.followers => "Followers ("
    | Dialog.following => "Following ("
    end in
  let view :=
    Dialog.FollowListDialog useFollowersHook useFollowingHook currentUser subject type in
  (Dialog.isLoading result = true -> Dialog.body view = Dialog.Skeletons 5) /\
  (Dialog.isLoading result = false ->
   (exists items,
       Dialog.body view = Dialog.Items items /\ items <> [] /\
       Dialog.data result = Some (map Dialog.key items) /\
       map Dialog.pubkey items = map Dialog.key items /\
       (forall i, In i items -> Dialog.currentUserPubkey i = currentUser) /\
       Dialog.title view
       = (label ++ Dialog.showLength (length items) ++ ")")%string)
   \/
   (exists text,
       Dialog.body view = Dialog.EmptyText text /\
       text = match type with
              | Dialog.followers => "No followers yet"
              | Dialog.following => "Not following anyone yet"
              end /\
       (Dialog.data result = None \/ Dialog.data result = Some []) /\
       Dialog.title view = (label ++ "0)")%string)).
Proof.
  cbv zeta. unfold Dialog.FollowListDialog.
  destruct type; cbn [Dialog.title Dialog.body].
  all: match goal with
       | |- context [Dialog.isLoading ?r] =>
           destruct r as [[[| u l] |] loading]
       end; cbn [Dialog.data Dialog.isLoading Dialog.lengthOrZero].
  all: split; [intros ->; reflexivity | intros ->].
  all: try (right; eexists; split; [reflexivity |];
            split; [reflexivity |]; split; [auto | reflexivity]).
  all: left; eexists; split; [reflexivity |]; split; [discriminate |];
    rewrite !map_map; cbn [Dialog.key Dialog.pubkey]; rewrite map_id, length_map;
    split; [reflexivity |]; split; [reflexivity |];
    split; [| reflexivity];
    intros i Hi; apply in_map_iff in Hi as (x & <- & _); reflexivity.
Qed.

Lemma FollowListDialog_title_matches_body_witness :
  Dialog.FollowListDialog
    (fun arg => {| Dialog.data := option_map (fun _ => [Some "bob"; Some "alice"]) arg;
                   Dialog.isLoading := false |})
    (fun arg => {| Dialog.data := None; Dialog.isLoading := true |})
    (Some "alice") "carol" Dialog.followers =
  {| Dialog.title := "Followers (2)";
     Dialog.body :=
       Dialog.Items [ Dialog.mkItem (Some "bob") (Some "bob") (Some "alice");
                      Dialog.mkItem (Some "alice") (Some "alice") (Some "alice") ] |}.
Proof.
  destruct (proj2 (FollowListDialog_title_matches_body
                     (fun arg => {| Dialog.data :=
                                      option_map (fun _ => [Some "bob"; Some "alice"]) arg;
                                    Dialog.isLoading := false |})
                     (fun arg => {| Dialog.data := None; Dialog.isLoading := true |})
                     (Some "alice") "carol" Dialog.followers) eq_refl)
    as [(items & Hbody & _) | (text & Hbody & _)]; reflexivity.
Defined.

Lemma NoDup_map_Some {A : Type} (s : list A) : NoDup s -> NoDup (map Some s).
Proof.
  induction s as [| x s IH]; cbn [map]; intros Hs; [constructor |].
  inversion Hs as [| ? ? Hnot Hs']; subst. constructor; [| now apply IH].
  rewrite in_map_iff. intros (y & [= ->] & Hin). contradiction.
Qed.

(** X18. When the followers query has settled with the list [useFollowers]
    computed, the items of the followers dialog have pairwise different keys
    and the title shows the number of followers. *)
Theorem FollowListDialog_followers_keys_distinct
    (nostr : NostrQuery) context
    (useFollowersHook useFollowingHook : option string -> Dialog.QueryResult)
    (currentUser : option string) (subject : string) (l : list string) :
  useFollowers nostr (Some subject) context = inr l ->
  useFollowersHook (Some subject) =
    {| Dialog.data := Some (map Some l); Dialog.isLoading := false |} ->
  let view :=
    Dialog.FollowListDialog useFollowersHook useFollowingHook currentUser subject
      Dialog.followers in
  Dialog.title view = ("Followers (" ++ Dialog.showLength (length l) ++ ")")%string /\
  match Dialog.body view with
  | Dialog.Items items =>
      map Dialog.key items = map Some l /\ NoDup (map Dialog.key items)
  | Dialog.EmptyText _ => l = []
  | Dialog.Skeletons _ => False
  end.
Proof.
  intros Hl Hhook. cbv zeta. unfold Dialog.FollowListDialog. rewrite Hhook.
  cbn [Dialog.data Dialog.isLoading Dialog.title Dialog.body Dialog.lengthOrZero].
  rewrite length_map. split; [reflexivity |].
  apply useFollowers_NoDup in Hl.
  destruct l as [| a l]; [reflexivity |].
  cbn [map Dialog.body].
  change (Some a :: map Some l) with (map Some (a :: l)).
  rewrite map_map. cbn [Dialog.key]. rewrite map_id. split; [reflexivity |].
  now apply (NoDup_map_Some (a :: l)).
Qed.

Lemma FollowListDialog_followers_keys_distinct_witness :
  Dialog.title
    (Dialog.FollowListDialog
       (fun _ => {| Dialog.data := Some [Some "bob"; Some "alice"];
                    Dialog.isLoading := false |})
       (fun _ => {| Dialog.data := None; Dialog.isLoading := false |})
       None "carol" Dialog.followers) = "Followers (2)".
Proof.
  exact (proj1 (FollowListDialog_followers_keys_distinct
                  (memoryRelay followersStore) queryContext
                  (fun _ => {| Dialog.data := Some [Some "bob"; Some "alice"];
                               Dialog.isLoading := false |})
                  (fun _ => {| Dialog.data := None; Dialog.isLoading := false |})
                  None "carol" ["bob"; "alice"] eq_refl eq_refl)).
Defined.
